(** * 16score vMix server: API links, public resolver and live-score reads

    A shallow embedding of the route handlers of
    [routes/apilinks.js], [routes/public.js] and [routes/livescore.js]
    and of the [ApiLink] model, with the properties of the link
    directory, the public resolver and the view projection proved over it.

    Conventions.
    - A JavaScript string is the list of its UTF-16 code units.
    - A handler is a function from the database (and the request) to a
      response and the database it leaves behind.  A handler body runs in
      [try { ... } catch], so an exception becomes the 500 response with the
      database as it was when the exception was thrown.
    - The handlers of [routes/apilinks.js] are modelled after
      [authenticateToken] has accepted the bearer credential and set
      [req.userId]. *)

From stdpp Require Import base numbers list strings gmap.
From Stdlib Require Import ZArith Lia.
From Stdlib Require Import Sorting.Sorted.

Local Open Scope N_scope.

(** ** JavaScript strings *)

Module JsString.

(** A string as its UTF-16 code units. *)
Abbreviation jstring := (list N).

(** The code units of an ASCII literal of the source. *)
Fixpoint lit (s : string) : jstring :=
  match s with
  | EmptyString => []
  | String a s' => Ascii.N_of_ascii a :: lit s'
  end.

(** ECMAScript [WhiteSpace] and [LineTerminator] code points, the ones
    [String.prototype.trim] strips: TAB, LF, VT, FF, CR, SP, NBSP,
    U+1680, U+2000..U+200A, U+2028, U+2029, U+202F, U+205F, U+3000 and
    U+FEFF. *)
Definition is_white_space (c : N) : bool :=
  ((9 <=? c) && (c <=? 13)) || (c =? 32) || (c =? 160) || (c =? 5760)
  || ((8192 <=? c) && (c <=? 8202)) || (c =? 8232) || (c =? 8233)
  || (c =? 8239) || (c =? 8287) || (c =? 12288) || (c =? 65279).

(** [s.trimStart()] *)
Fixpoint trimStart (s : jstring) : jstring :=
  match s with
  | [] => []
  | c :: s' => if is_white_space c then trimStart s' else s
  end.

(** [s.trimEnd()] *)
Definition trimEnd (s : jstring) : jstring := rev (trimStart (rev s)).

(** [s.trim()] *)
Definition trim (s : jstring) : jstring := trimEnd (trimStart s).

Definition hyphen : N := 45.
Definition underscore : N := 95.

(** [s.replace(/-/g, '_')]: every hyphen becomes an underscore. *)
Definition replace_hyphens (s : jstring) : jstring :=
  map (fun c => if c =? hyphen then underscore else c) s.

(** [s.length === 0], the string that is falsy and that a [required]
    String path of a schema rejects. *)
Definition is_empty (s : jstring) : bool :=
  match s with [] => true | _ => false end.

(** [a === b] on strings. *)
Definition eqb (a b : jstring) : bool := bool_decide (a = b).

End JsString.
Import JsString.

(** ** Container names *)

(** [routes/public.js], lines 67-68:
    [const cleanMatchId = apiLink.matchId.trim();]
    [const collectionName = `match_${cleanMatchId.replace(/-/g, '_')}`;] *)
Definition public_collectionName (matchId : jstring) : jstring :=
  let cleanMatchId := trim matchId in
  lit "match_" ++ replace_hyphens cleanMatchId.

(** [routes/livescore.js], lines 656 and 755:
    [const collectionName = `match_${matchId.replace(/-/g, '_')}`;] *)
Definition livescore_collectionName (matchId : jstring) : jstring :=
  lit "match_" ++ replace_hyphens matchId.

(** ** JavaScript values *)

(** The values a JSON body, a query string or a stored document can hold.
    Numbers are the integer-valued ones. *)
#[warnings="-register-all"]
Inductive JsVal : Type :=
| JUndefined
| JNull
| JBool (b : bool)
| JNum (n : Z)
| JStr (s : jstring)
| JArr (items : list JsVal)
| JObj (fields : list (jstring * JsVal)).

(** A document of a collection: its fields, in order. *)
Abbreviation Doc := (list (jstring * JsVal)).

(** [ToBoolean]: [undefined], [null], [false], [0] and [''] are falsy. *)
Definition truthy (v : JsVal) : bool :=
  match v with
  | JUndefined | JNull => false
  | JBool b => b
  | JNum n => negb (n =? 0)%Z
  | JStr s => negb (is_empty s)
  | JArr _ | JObj _ => true
  end.

(** [a || b] *)
Definition js_or (a b : JsVal) : JsVal := if truthy a then a else b.

(** [doc.k]: the value of the field, [undefined] when the document has no
    such field. *)
Fixpoint get_field (doc : Doc) (k : jstring) : JsVal :=
  match doc with
  | [] => JUndefined
  | (k', v) :: doc' => if eqb k' k then v else get_field doc' k
  end.

(** [names.includes(v)] for an array of string literals. *)
Definition includes (names : list jstring) (v : JsVal) : bool :=
  match v with
  | JStr s => existsb (eqb s) names
  | _ => false
  end.

(** [v === 'literal'] *)
Definition is_string (v : JsVal) (s : jstring) : bool :=
  match v with
  | JStr t => eqb t s
  | _ => false
  end.

(** [typeof v === 'boolean'] *)
Definition as_boolean (v : JsVal) : option bool :=
  match v with JBool b => Some b | _ => None end.

(** [v.trim()]: the trimmed string when [v] is a string; on every other
    truthy value of a JSON body [v.trim] is not a function and the call
    throws a [TypeError] ([None]). *)
Definition call_trim (v : JsVal) : option jstring :=
  match v with JStr s => Some (trim s) | _ => None end.

(** The string a [String] path of the schema receives. *)
Definition as_string (v : JsVal) : option jstring :=
  match v with JStr s => Some s | _ => None end.

(** ** The ApiLink model ([models/ApiLink.js]) *)

Abbreviation ObjectId := nat (only parsing).

(** A document of the [apilinks] collection, with the paths of
    [apiLinkSchema] that the handlers read or write.  [lastAccessed] is a
    date in milliseconds or [null].  [accessCount] is a Number that holds
    a count: it starts at 0 and is only ever incremented, and it is
    modelled as an integer, which is exact below 2^53.  The two dates
    that mongoose maintains by itself ([timestamps: true]: [createdAt],
    and [updatedAt], which every modifying [save()] rewrites) are not
    paths of this record: a statement about a stored link is a statement
    about the eight paths below. *)
Record ApiLink : Type := mkApiLink {
  _id : ObjectId;
  userId : ObjectId;
  linkId : jstring;
  matchId : jstring;
  type : jstring;
  isActive : bool;
  lastAccessed : option Z;
  accessCount : Z
}.

(** [enum: ['full', 'alive_status', 'points_table']] *)
Definition type_enum : list jstring :=
  [lit "full"; lit "alive_status"; lit "points_table"].

(** Validation of a document against [apiLinkSchema], as [create] and
    [save] run it: [linkId] and [matchId] are [required] strings, which
    rejects the empty string, and [type] is [required] and in its [enum]. *)
Definition validate (l : ApiLink) : bool :=
  negb (is_empty (linkId l)) && negb (is_empty (matchId l))
  && existsb (eqb (type l)) type_enum.

(** [ApiLink.findOne(filter)] *)
Definition findOne (filter : ApiLink → bool) (links : list ApiLink)
  : option ApiLink :=
  find filter links.

(** The write of [save()], an update of the one stored document that has
    the [_id] of [l]. *)
Fixpoint updateOne (l : ApiLink) (links : list ApiLink) : list ApiLink :=
  match links with
  | [] => []
  | d :: rest =>
      if Nat.eqb (_id d) (_id l) then l :: rest else d :: updateOne l rest
  end.

(** [apiLink.save()]: validates the document, then writes its paths (the
    ones the record carries) over the stored ones.  [None] is the
    rejected promise. *)
Definition save (l : ApiLink) (links : list ApiLink)
  : option (list ApiLink) :=
  if validate l then Some (updateOne l links) else None.

(** [ApiLink.findByIdAndDelete(id)] *)
Fixpoint findByIdAndDelete (id : ObjectId) (links : list ApiLink)
  : list ApiLink :=
  match links with
  | [] => []
  | d :: rest =>
      if Nat.eqb (_id d) id then rest else d :: findByIdAndDelete id rest
  end.

(** The [_id] the driver gives a new document: one no stored document has. *)
Definition new_ObjectId (links : list ApiLink) : ObjectId :=
  S (foldr Nat.max 0%nat (map _id links)).

(** [ApiLink.create({userId, linkId, matchId, type})]: the schema defaults
    fill [isActive], [lastAccessed] and [accessCount]; the document is
    validated and inserted, and the unique index on [linkId] rejects a
    duplicate.  [None] is the rejected promise. *)
Definition create (uid : ObjectId) (lid mid ty : jstring)
    (links : list ApiLink) : option (ApiLink * list ApiLink) :=
  let doc := {| _id := new_ObjectId links; userId := uid; linkId := lid;
                matchId := mid; type := ty; isActive := true;
                lastAccessed := None; accessCount := 0%Z |} in
  if validate doc && negb (existsb (fun d => eqb (linkId d) lid) links)
  then Some (doc, links ++ [doc])
  else None.

(** [const chars = 'ABC...XYZabc...xyz0123456789'] *)
Definition chars : jstring :=
  lit "ABCDEFGHIJKLMNOPQRSTUVWXYZabcdefghijklmnopqrstuvwxyz0123456789".

(** [s.charAt(i)]: the empty string when [i] is out of range. *)
Definition charAt (s : jstring) (i : nat) : jstring :=
  match s !! i with Some c => [c] | None => [] end.

(** The source of randomness: [draws k] is the value of the [k]-th
    evaluation of [Math.floor(Math.random() * chars.length)]. *)
Abbreviation Draws := (nat → nat).

(** [ApiLink.generateLinkId()], reading its sixteen draws from position
    [pos] on:
    [for (let i = 0; i < 16; i++) result += chars.charAt(...)] *)
Fixpoint generateLinkId_from (n : nat) (draws : Draws) (pos : nat)
    (result : jstring) : jstring :=
  match n with
  | O => result
  | S n' =>
      generateLinkId_from n' draws (S pos) (result ++ charAt chars (draws pos))
  end.

Definition generateLinkId (draws : Draws) (pos : nat) : jstring :=
  generateLinkId_from 16 draws pos [].

(** ** The database *)

(** The [apilinks] collection and the other collections of the database by
    name, among them the per-match containers of snapshots. *)
Record Db : Type := mkDb {
  apilinks : list ApiLink;
  collections : gmap jstring (list Doc)
}.

Definition with_apilinks (db : Db) (links : list ApiLink) : Db :=
  {| apilinks := links; collections := collections db |}.

(** [collections.some(col => col.name === collectionName)] over
    [listCollections()] *)
Definition collectionExists (db : Db) (collectionName : jstring) : bool :=
  bool_decide (collectionName ∈ dom (collections db)).

(** [db.collection(name)]: the documents of the collection, none when there
    is no such collection. *)
Definition collection (db : Db) (name : jstring) : list Doc :=
  default [] (collections db !! name).

(** The sort key of [{ sort: { timestamp: -1 } }] for timestamps that are
    integers (dates in milliseconds).  The order the database gives to
    timestamps of other types is not modelled: here such a document, like
    one without a timestamp, sorts lowest.  The statements below hold for
    whichever document [findLatest] picks. *)
Definition timestamp_key (doc : Doc) : option Z :=
  match get_field doc (lit "timestamp") with
  | JNum t => Some t
  | _ => None
  end.

Definition key_ltb (a b : option Z) : bool :=
  match a, b with
  | None, Some _ => true
  | Some x, Some y => (x <? y)%Z
  | _, None => false
  end.

(** [collection.findOne({}, { sort: { timestamp: -1 } })]: a document
    with the greatest key, the first of them in the collection's order;
    [None] is [null]. *)
Fixpoint findLatest (docs : list Doc) : option Doc :=
  match docs with
  | [] => None
  | d :: rest =>
      match findLatest rest with
      | None => Some d
      | Some e =>
          if key_ltb (timestamp_key d) (timestamp_key e) then Some e
          else Some d
      end
  end.

(** ** Responses *)

(** The JSON envelope of a response, by shape:
    [{success: false, error}], [{success: true, message}],
    [{success: true, data, publicUrl?, message?}] for a link, and
    [{success: true, matchId, timestamp, data}] for match data. *)
Inductive Body : Type :=
| Failure (error : jstring)
| Done (message : jstring)
| LinkData (data : ApiLink) (publicUrl : option jstring)
    (message : option jstring)
| MatchData (matchId timestamp data : JsVal).

Record Response : Type := mkResponse { status : nat; body : Body }.

(** [res.status(code).json({success: false, error})] *)
Definition fail (code : nat) (error : string) : Response :=
  {| status := code; body := Failure (lit error) |}.

(** The [catch] block of every handler. *)
Definition server_error : Response := fail 500 "Server Error".

(** [`${baseUrl}/api/public/${linkId}`] *)
Definition publicUrl_of (baseUrl lid : jstring) : jstring :=
  baseUrl ++ lit "/api/public/" ++ lid.

(** ** The view projection *)

(** [routes/public.js], lines 99-114: the data a link of type [ty]
    exposes of the latest snapshot. *)
Definition public_responseData (ty : jstring) (latestMatch : Doc) : JsVal :=
  if eqb ty (lit "points_table") then
    JObj [ (lit "pointsTable",
            js_or (get_field latestMatch (lit "pointsTable")) (JArr []));
           (lit "matchSummary",
            js_or (get_field latestMatch (lit "MatchSummary1")) (JObj [])) ]
  else if eqb ty (lit "alive_status") then
    JObj [ (lit "teamStats",
            js_or (get_field latestMatch (lit "TeamStats1")) (JArr []));
           (lit "matchSummary",
            js_or (get_field latestMatch (lit "MatchSummary1")) (JObj [])) ]
  else if eqb ty (lit "full") then JObj latestMatch
  else JObj [].

(** [routes/livescore.js], lines 681-694: the same for the [type] of the
    query string, which is one of the two filtered views there. *)
Definition livescore_responseData (ty : JsVal) (latestMatch : Doc) : JsVal :=
  if is_string ty (lit "points_table") then
    JObj [ (lit "pointsTable",
            js_or (get_field latestMatch (lit "pointsTable")) (JArr []));
           (lit "matchSummary",
            js_or (get_field latestMatch (lit "MatchSummary1")) (JObj [])) ]
  else if is_string ty (lit "alive_status") then
    JObj [ (lit "teamStats",
            js_or (get_field latestMatch (lit "TeamStats1")) (JArr []));
           (lit "matchSummary",
            js_or (get_field latestMatch (lit "MatchSummary1")) (JObj [])) ]
  else JObj [].

(** ** The public resolver ([routes/public.js]) *)

(** The filter [{ linkId, isActive: true }] *)
Definition active_with (lid : jstring) (l : ApiLink) : bool :=
  eqb (linkId l) lid && Bool.eqb (isActive l) true.

(** [GET /api/public/:linkId], at time [now]. *)
Definition public_get (now : Z) (lid : jstring) (db : Db) : Response * Db :=
  match findOne (active_with lid) (apilinks db) with
  | None => (fail 404 "Not found", db)
  | Some apiLink =>
      let apiLink :=
        {| _id := _id apiLink; userId := userId apiLink;
           linkId := linkId apiLink; matchId := matchId apiLink;
           type := type apiLink; isActive := isActive apiLink;
           lastAccessed := Some now;
           accessCount := (accessCount apiLink + 1)%Z |} in
      match save apiLink (apilinks db) with
      | None => (server_error, db)
      | Some links =>
          let db := with_apilinks db links in
          let collectionName := public_collectionName (matchId apiLink) in
          if negb (collectionExists db collectionName) then
            (fail 404 "Match data not found", db)
          else
            match findLatest (collection db collectionName) with
            | None => (fail 404 "No match data found", db)
            | Some latestMatch =>
                ({| status := 200;
                    body := MatchData
                      (get_field latestMatch (lit "matchId"))
                      (get_field latestMatch (lit "timestamp"))
                      (public_responseData (type apiLink) latestMatch) |},
                 db)
            end
      end
  end.

(** ** The direct reads ([routes/livescore.js]) *)

(** [GET /api/livescore/:matchId?type=...] *)
Definition livescore_get (mid : jstring) (ty : JsVal) (db : Db) : Response :=
  if negb (truthy ty)
     || negb (includes [lit "alive_status"; lit "points_table"] ty) then
    fail 400 "Invalid type parameter. Use 'alive_status' or 'points_table'"
  else
    let collectionName := livescore_collectionName mid in
    if negb (collectionExists db collectionName) then
      fail 404 "Match not found"
    else
      match findLatest (collection db collectionName) with
      | None => fail 404 "No match data found"
      | Some latestMatch =>
          {| status := 200;
             body := MatchData
               (get_field latestMatch (lit "matchId"))
               (get_field latestMatch (lit "timestamp"))
               (livescore_responseData ty latestMatch) |}
      end.

(** [GET /api/livescore/:matchId/full] *)
Definition livescore_full (mid : jstring) (db : Db) : Response :=
  let collectionName := livescore_collectionName mid in
  if negb (collectionExists db collectionName) then
    fail 404 "Match not found"
  else
    match findLatest (collection db collectionName) with
    | None => fail 404 "No match data found"
    | Some latestMatch =>
        {| status := 200;
           body := MatchData
             (get_field latestMatch (lit "matchId"))
             (get_field latestMatch (lit "timestamp"))
             (JObj latestMatch) |}
    end.

(** ** The link manager ([routes/apilinks.js]) *)

(** The variables of the generation loop of [POST /api/apilinks]:
    [linkId] ([None] is [undefined]), [isUnique], [attempts], and the
    number of draws the calls of [generateLinkId] have consumed. *)
Record GenState : Type := mkGenState {
  gen_linkId : option jstring;
  isUnique : bool;
  attempts : nat;
  drawn : nat
}.

(** [let linkId; let isUnique = false; let attempts = 0;] *)
Definition gen_init : GenState :=
  {| gen_linkId := None; isUnique := false; attempts := 0; drawn := 0 |}.

(** The body of the loop:
    [linkId = ApiLink.generateLinkId();]
    [const existingLink = await ApiLink.findOne({ linkId });]
    [if (!existingLink) { isUnique = true; }  attempts++;] *)
Definition gen_body (draws : Draws) (links : list ApiLink) (st : GenState)
  : GenState :=
  let lid := generateLinkId draws (drawn st) in
  let existingLink := findOne (fun l => eqb (linkId l) lid) links in
  {| gen_linkId := Some lid;
     isUnique := match existingLink with
                 | None => true
                 | Some _ => isUnique st
                 end;
     attempts := S (attempts st);
     drawn := (drawn st + 16)%nat |}.

(** [while (!isUnique && attempts < 10) { ... }]; [None] when [fuel]
    iterations do not reach the exit. *)
Fixpoint gen_while (fuel : nat) (draws : Draws) (links : list ApiLink)
    (st : GenState) : option GenState :=
  if negb (isUnique st) && (attempts st <? 10)%nat then
    match fuel with
    | O => None
    | S fuel' => gen_while fuel' draws links (gen_body draws links st)
    end
  else Some st.

(** [POST /api/apilinks] for the caller [uid], with the body fields
    [matchId] and [type]. *)
Definition apilinks_post (fuel : nat) (draws : Draws) (uid : ObjectId)
    (mid ty : JsVal) (baseUrl : jstring) (db : Db) : option (Response * Db) :=
  if negb (truthy mid) || negb (truthy ty) then
    Some (fail 400 "Match ID and type are required", db)
  else if negb (includes type_enum ty) then
    Some (fail 400 "Invalid type. Use: full, alive_status, or points_table",
          db)
  else
    st ← gen_while fuel draws (apilinks db) gen_init;
    if negb (isUnique st) then
      Some (fail 500 "Failed to generate unique link ID", db)
    else
      match gen_linkId st, call_trim mid, as_string ty with
      | Some lid, Some m, Some t =>
          match create uid lid m t (apilinks db) with
          | Some (apiLink, links) =>
              Some ({| status := 201;
                       body := LinkData apiLink
                                 (Some (publicUrl_of baseUrl lid)) None |},
                    with_apilinks db links)
          | None => Some (server_error, db)
          end
      | _, _, _ => Some (server_error, db)
      end.

(** The filter [{ linkId, userId: req.userId }] *)
Definition owned_by (lid : jstring) (uid : ObjectId) (l : ApiLink) : bool :=
  eqb (linkId l) lid && Nat.eqb (userId l) uid.

(** [DELETE /api/apilinks/:linkId] *)
Definition apilinks_delete (uid : ObjectId) (lid : jstring) (db : Db)
  : Response * Db :=
  match findOne (owned_by lid uid) (apilinks db) with
  | None => (fail 404 "API link not found", db)
  | Some apiLink =>
      ({| status := 200;
          body := Done (lit "API link deleted successfully") |},
       with_apilinks db (findByIdAndDelete (_id apiLink) (apilinks db)))
  end.

(** [PATCH /api/apilinks/:linkId/update] *)
Definition apilinks_update (uid : ObjectId) (lid : jstring) (mid ty : JsVal)
    (baseUrl : jstring) (db : Db) : Response * Db :=
  if negb (truthy mid) || negb (truthy ty) then
    (fail 400 "Match ID and type are required", db)
  else if negb (includes type_enum ty) then
    (fail 400 "Invalid type. Use: full, alive_status, or points_table", db)
  else
    match findOne (owned_by lid uid) (apilinks db) with
    | None => (fail 404 "API link not found", db)
    | Some apiLink =>
        match call_trim mid, as_string ty with
        | Some m, Some t =>
            let apiLink :=
              {| _id := _id apiLink; userId := userId apiLink;
                 linkId := linkId apiLink; matchId := m; type := t;
                 isActive := isActive apiLink;
                 lastAccessed := lastAccessed apiLink;
                 accessCount := accessCount apiLink |} in
            match save apiLink (apilinks db) with
            | Some links =>
                ({| status := 200;
                    body := LinkData apiLink
                              (Some (publicUrl_of baseUrl lid))
                              (Some (lit "API link updated successfully")) |},
                 with_apilinks db links)
            | None => (server_error, db)
            end
        | _, _ => (server_error, db)
        end
    end.

(** [apiLink.isActive = b; await apiLink.save();] and the reply of the
    two handlers that set the flag. *)
Definition set_isActive (apiLink : ApiLink) (b : bool) (db : Db)
  : Response * Db :=
  let apiLink :=
    {| _id := _id apiLink; userId := userId apiLink;
       linkId := linkId apiLink; matchId := matchId apiLink;
       type := type apiLink; isActive := b;
       lastAccessed := lastAccessed apiLink;
       accessCount := accessCount apiLink |} in
  match save apiLink (apilinks db) with
  | Some links =>
      ({| status := 200;
          body := LinkData apiLink None
                    (Some (lit "API link "
                           ++ (if b then lit "enabled" else lit "disabled")
                           ++ lit " successfully")) |},
       with_apilinks db links)
  | None => (server_error, db)
  end.

(** [PATCH /api/apilinks/:linkId/toggle] *)
Definition apilinks_toggle (uid : ObjectId) (lid : jstring) (db : Db)
  : Response * Db :=
  match findOne (owned_by lid uid) (apilinks db) with
  | None => (fail 404 "API link not found", db)
  | Some apiLink => set_isActive apiLink (negb (isActive apiLink)) db
  end.

(** [PATCH /api/apilinks/:linkId/status], with the body field [isActive] *)
Definition apilinks_status (uid : ObjectId) (lid : jstring) (active : JsVal)
    (db : Db) : Response * Db :=
  match as_boolean active with
  | None => (fail 400 "isActive must be a boolean value", db)
  | Some b =>
      match findOne (owned_by lid uid) (apilinks db) with
      | None => (fail 404 "API link not found", db)
      | Some apiLink => set_isActive apiLink b db
      end
  end.

(** ** The server as a state machine *)

(** The requests of the link manager, after authentication. *)
Inductive ManagerRequest : Type :=
| PostApiLink (draws : Draws) (uid : ObjectId) (mid ty : JsVal)
    (baseUrl : jstring)
| DeleteApiLink (uid : ObjectId) (lid : jstring)
| PatchUpdate (uid : ObjectId) (lid : jstring) (mid ty : JsVal)
    (baseUrl : jstring)
| PatchToggle (uid : ObjectId) (lid : jstring)
| PatchStatus (uid : ObjectId) (lid : jstring) (active : JsVal).

(** The requests of the routes modelled here. *)
Inductive Request : Type :=
| Manager (r : ManagerRequest)
| GetPublic (now : Z) (lid : jstring)
| GetLivescore (mid : jstring) (ty : JsVal)
| GetLivescoreFull (mid : jstring).

Definition manage (fuel : nat) (r : ManagerRequest) (db : Db)
  : option (Response * Db) :=
  match r with
  | PostApiLink draws uid mid ty baseUrl =>
      apilinks_post fuel draws uid mid ty baseUrl db
  | DeleteApiLink uid lid => Some (apilinks_delete uid lid db)
  | PatchUpdate uid lid mid ty baseUrl =>
      Some (apilinks_update uid lid mid ty baseUrl db)
  | PatchToggle uid lid => Some (apilinks_toggle uid lid db)
  | PatchStatus uid lid active => Some (apilinks_status uid lid active db)
  end.

(** One request served; [None] only when [fuel] is too small for the
    generation loop. *)
Definition handle (fuel : nat) (r : Request) (db : Db)
  : option (Response * Db) :=
  match r with
  | Manager m => manage fuel m db
  | GetPublic now lid => Some (public_get now lid db)
  | GetLivescore mid ty => Some (livescore_get mid ty db, db)
  | GetLivescoreFull mid => Some (livescore_full mid db, db)
  end.

(** The requests served one after the other. *)
Fixpoint run (fuel : nat) (rs : list Request) (db : Db) : option Db :=
  match rs with
  | [] => Some db
  | r :: rs' =>
      match handle fuel r db with
      | Some (_, db') => run fuel rs' db'
      | None => None
      end
  end.

(** ** The store invariant *)

(** What [create] and [save] maintain: every stored link passes the
    schema's validation, no two have the same [_id], and no two have the
    same [linkId] (the unique index). *)
Record links_ok (links : list ApiLink) : Prop := mk_links_ok {
  ok_valid : Forall (fun l => validate l = true) links;
  ok_ids : NoDup (map _id links);
  ok_linkIds : NoDup (map linkId links)
}.

(** ** Notions the statements use *)

(** A link as one accepted resolution at time [now] leaves it. *)
Definition accessed (now : Z) (l : ApiLink) : ApiLink :=
  {| _id := _id l; userId := userId l; linkId := linkId l;
     matchId := matchId l; type := type l; isActive := isActive l;
     lastAccessed := Some now; accessCount := (accessCount l + 1)%Z |}.

(** The reply of the resolver once the token is accepted, as it depends on
    the container of the name [name]. *)
Definition resolved (db : Db) (name ty : jstring) : Response :=
  match collections db !! name with
  | None => fail 404 "Match data not found"
  | Some docs =>
      match findLatest docs with
      | None => fail 404 "No match data found"
      | Some latestMatch =>
          {| status := 200;
             body := MatchData
               (get_field latestMatch (lit "matchId"))
               (get_field latestMatch (lit "timestamp"))
               (public_responseData ty latestMatch) |}
      end
  end.

(** Two states of a link with the same usage telemetry. *)
Definition same_telemetry (l l' : ApiLink) : Prop :=
  accessCount l' = accessCount l ∧ lastAccessed l' = lastAccessed l.

(** No link stored in [links] has a different telemetry in [links']. *)
Definition telemetry_kept (links links' : list ApiLink) : Prop :=
  ∀ l l', l ∈ links → l' ∈ links' → _id l = _id l' → same_telemetry l l'.

(** The token the generation loop tries at its attempt number [k],
    counted from 0: each attempt reads sixteen draws. *)
Definition token (draws : Draws) (k : nat) : jstring :=
  generateLinkId draws (16 * k).

(** The digits and the letters of the two cases. *)
Definition is_alnum (c : N) : bool :=
  ((48 <=? c) && (c <=? 57)) || ((65 <=? c) && (c <=? 90))
  || ((97 <=? c) && (c <=? 122)).

(** The specification's wording of the container name: the identifier is
    cut at its hyphens and the pieces are joined by underscores. *)
Fixpoint split_on (sep : N) (s : jstring) : list jstring :=
  match s with
  | [] => [[]]
  | c :: s' =>
      if c =? sep then [] :: split_on sep s'
      else match split_on sep s' with
           | [] => [[c]]
           | w :: ws => (c :: w) :: ws
           end
  end.

Fixpoint join_with (sep : N) (parts : list jstring) : jstring :=
  match parts with
  | [] => []
  | w :: ws =>
      match ws with
      | [] => w
      | _ :: _ => w ++ sep :: join_with sep ws
      end
  end.

(** A projected field as the statements describe it, on the snapshot seen
    as a map from field names to values: the value of the field when the
    snapshot has the field and its value is not falsy (every list and
    every object is such a value), the empty container otherwise. *)
Definition field_or (snapshot : Doc) (k : jstring) (empty : JsVal) : JsVal :=
  match (list_to_map snapshot : gmap jstring JsVal) !! k with
  | Some v => if truthy v then v else empty
  | None => empty
  end.

(** ** A small database to run the handlers on *)

Module Sample.

(** An enabled points-table link of user 7 on match [m-1]. *)
Definition link_a : ApiLink :=
  {| _id := 1; userId := 7; linkId := lit "tokenA"; matchId := lit "m-1";
     type := lit "points_table"; isActive := true;
     lastAccessed := None; accessCount := 0 |}.

(** A disabled link of user 8 on the same match. *)
Definition link_b : ApiLink :=
  {| _id := 2; userId := 8; linkId := lit "tokenB"; matchId := lit "m-1";
     type := lit "full"; isActive := false;
     lastAccessed := Some 40%Z; accessCount := 3 |}.

(** An enabled link of user 8 on a match that has no container. *)
Definition link_c : ApiLink :=
  {| _id := 3; userId := 8; linkId := lit "tokenC"; matchId := lit "m-2";
     type := lit "alive_status"; isActive := true;
     lastAccessed := None; accessCount := 0 |}.

Definition snapshot : Doc :=
  [ (lit "matchId", JStr (lit "m-1"));
    (lit "timestamp", JNum 1700000000000);
    (lit "pointsTable", JArr [JNum 10; JNum 4]) ].

Definition db : Db :=
  {| apilinks := [link_a; link_b; link_c];
     collections := {[ lit "match_m_1" := [snapshot] ]} |}.

(** Every draw is 0: [generateLinkId] returns sixteen times [A]. *)
Definition draws : Draws := fun _ => 0%nat.

(** A link that holds the token these draws give. *)
Definition link_d : ApiLink :=
  {| _id := 4; userId := 7; linkId := lit "AAAAAAAAAAAAAAAA";
     matchId := lit "m-1"; type := lit "full"; isActive := true;
     lastAccessed := None; accessCount := 0 |}.

Definition db_taken : Db :=
  {| apilinks := [link_a; link_d]; collections := ∅ |}.

End Sample.

(** ** The bearer credential ([routes/apilinks.js], [authenticateToken]) *)

Section Authentication.

(** [jwt.verify(token, secret, callback)]: [None] is the error the
    callback receives, [Some uid] is the [userId] of the decoded payload. *)
Variable jwt_verify : jstring → option nat.

(** [authHeader && authHeader.split(' ')[1]] for the header
    [req.headers['authorization']]: [None] is [undefined]. *)
Definition bearer_token (authHeader : option jstring) : option jstring :=
  match authHeader with
  | None => None
  | Some h => if is_empty h then Some h else split_on 32 h !! 1%nat
  end.

(** The middleware: [res] sends the response and ends the request,
    [next] runs the handler with [req.userId] set. *)
Definition authenticateToken {A : Type} (authHeader : option jstring)
    (res : Response → A) (next : nat → A) : A :=
  match bearer_token authHeader with
  | None => res (fail 401 "Access token required")
  | Some token =>
      if is_empty token then res (fail 401 "Access token required")
      else
        match jwt_verify token with
        | None => res (fail 403 "Invalid or expired token")
        | Some uid => next uid
        end
  end.

(** A route of the link manager behind the middleware:
    [router.METHOD(path, authenticateToken, handler)]; [route uid] is the
    request once [req.userId] is [uid]. *)
Definition protected (fuel : nat) (authHeader : option jstring)
    (route : nat → ManagerRequest) (db : Db) : option (Response * Db) :=
  authenticateToken authHeader
    (fun r => Some (r, db))
    (fun uid => manage fuel (route uid) db).

End Authentication.

(** The caller of a request of the link manager. *)
Definition requester (r : ManagerRequest) : nat :=
  match r with
  | PostApiLink _ uid _ _ _ => uid
  | DeleteApiLink uid _ => uid
  | PatchUpdate uid _ _ _ _ => uid
  | PatchToggle uid _ => uid
  | PatchStatus uid _ _ => uid
  end.

(** ** The list of the caller's links ([routes/apilinks.js], [GET /]) *)

(** [apiLinkSchema.methods.getApiUrl]: [`/api/public/${this.linkId}`] *)
Definition getApiUrl (l : ApiLink) : jstring :=
  lit "/api/public/" ++ linkId l.

(** The body [{success: true, count, data}], each element of [data] being
    a link with its [publicUrl]. *)
Record LinkList : Type := mkLinkList {
  count : nat;
  data : list (ApiLink * jstring)
}.

Section ListLinks.

(** The [createdAt] path of a stored link, which the record [ApiLink]
    does not carry. *)
Variable createdAt : ApiLink → Z.

(** [.sort({ createdAt: -1 })]: newest first, links of the same date in
    the order of the collection. *)
Fixpoint insert_newest_first (l : ApiLink) (sorted : list ApiLink)
  : list ApiLink :=
  match sorted with
  | [] => [l]
  | d :: rest =>
      if (createdAt d <=? createdAt l)%Z then l :: sorted
      else d :: insert_newest_first l rest
  end.

Definition sort_newest_first (links : list ApiLink) : list ApiLink :=
  foldr insert_newest_first [] links.

(** [GET /api/apilinks]:
    [ApiLink.find({ userId: req.userId }).sort({ createdAt: -1 })], then
    the [publicUrl] of each. *)
Definition apilinks_get (uid : nat) (baseUrl : jstring) (db : Db)
  : LinkList :=
  let apiLinks :=
    sort_newest_first
      (List.filter (fun l => Nat.eqb (userId l) uid) (apilinks db)) in
  let linksWithUrls :=
    map (fun link => (link, publicUrl_of baseUrl (linkId link))) apiLinks in
  {| count := length linksWithUrls; data := linksWithUrls |}.

End ListLinks.

(** ** The URL normalisation of the server ([api/index.js]) *)

Definition slash : N := 47.

(** [url.includes('//')] *)
Fixpoint includes_double_slash (url : jstring) : bool :=
  match url with
  | [] => false
  | c :: rest =>
      match rest with
      | [] => false
      | d :: _ => ((c =? slash) && (d =? slash)) || includes_double_slash rest
      end
  end.

(** [url.replace(/\/+/g, '/')]: scanning from the left, a slash that
    starts a run is kept and the slashes that continue the run are
    dropped; [in_run] tells that the code unit before was a slash. *)
Fixpoint replace_slash_runs (in_run : bool) (url : jstring) : jstring :=
  match url with
  | [] => []
  | c :: rest =>
      if c =? slash then
        if in_run then replace_slash_runs true rest
        else slash :: replace_slash_runs true rest
      else c :: replace_slash_runs false rest
  end.

(** [if (req.url.includes('//')) req.url = req.url.replace(/\/+/g, '/')] *)
Definition normalize_url (url : jstring) : jstring :=
  if includes_double_slash url then replace_slash_runs false url else url.

(** ** More notions the statements use *)

(** The stored [matchId]s carry no white space at either end. *)
Definition matchIds_trimmed (links : list ApiLink) : Prop :=
  Forall (fun l => trim (matchId l) = matchId l) links.

(** A link with its [isActive] set to [b]. *)
Definition with_isActive (b : bool) (l : ApiLink) : ApiLink :=
  {| _id := _id l; userId := userId l; linkId := linkId l;
     matchId := matchId l; type := type l; isActive := b;
     lastAccessed := lastAccessed l; accessCount := accessCount l |}.

(** The requests of one token resolved at the times [nows], in order. *)
Definition resolutions (lid : jstring) (nows : list Z) : list Request :=
  map (fun now => GetPublic now lid) nows.

(** A link that was never resolved has the count 0 and no access date,
    and a link that was has a positive count and a date. *)
Definition telemetry_consistent (l : ApiLink) : Prop :=
  (0 ≤ accessCount l)%Z ∧ (accessCount l = 0%Z ↔ lastAccessed l = None).

(** The database before the first link is created. *)
Definition no_links (snapshots : gmap jstring (list Doc)) : Db :=
  {| apilinks := []; collections := snapshots |}.

(** A link after accepted resolutions at the times [nows], in order. *)
Definition counted (nows : list Z) (l : ApiLink) : ApiLink :=
  foldl (fun acc now => accessed now acc) l nows.

(** [a ?? b]: [b] when [a] is [undefined] or [null]. *)
Definition js_nullish_or (a b : JsVal) : JsVal :=
  match a with
  | JUndefined | JNull => b
  | _ => a
  end.

(** The projection in the words of the specification (section 4.3), which
    defaults a field with [??]:
    [{ standings: snapshot.standings ?? [], summary: snapshot.summary ?? {} }],
    [{ teamStatus: snapshot.teamStatus ?? [], summary: snapshot.summary ?? {} }],
    and the entire snapshot for the full view; with the field names of
    the code. *)
Definition spec_responseData (ty : jstring) (snapshot : Doc) : JsVal :=
  if eqb ty (lit "points_table") then
    JObj [ (lit "pointsTable",
            js_nullish_or (get_field snapshot (lit "pointsTable")) (JArr []));
           (lit "matchSummary",
            js_nullish_or (get_field snapshot (lit "MatchSummary1"))
              (JObj [])) ]
  else if eqb ty (lit "alive_status") then
    JObj [ (lit "teamStats",
            js_nullish_or (get_field snapshot (lit "TeamStats1")) (JArr []));
           (lit "matchSummary",
            js_nullish_or (get_field snapshot (lit "MatchSummary1"))
              (JObj [])) ]
  else if eqb ty (lit "full") then JObj snapshot
  else JObj [].

(** The database with the collection [name] holding [docs]. *)
Definition with_collection (db : Db) (name : jstring) (docs : list Doc)
  : Db :=
  {| apilinks := apilinks db;
     collections := <[name := docs]> (collections db) |}.

(** The paths of a link other than [isActive]. *)
Definition paths_but_isActive (l : ApiLink)
  : nat * nat * jstring * jstring * jstring * option Z * Z :=
  (_id l, userId l, linkId l, matchId l, type l, lastAccessed l,
   accessCount l).

(** ** More data to run the handlers on *)

Module Fixture.

(** A verifier that accepts the credential [good] for user 7 and the
    credential [other] for user 8. *)
Definition jwt_verify (token : jstring) : option nat :=
  if eqb token (lit "good") then Some 7%nat
  else if eqb token (lit "other") then Some 8%nat
  else None.

(** Creation dates by [_id]. *)
Definition createdAt (l : ApiLink) : Z := Z.of_nat (_id l).

(** A second link of user 8, enabled, on the match that has a
    container. *)
Definition link_e : ApiLink :=
  {| _id := 5; userId := 8; linkId := lit "tokenE"; matchId := lit "m-1";
     type := lit "full"; isActive := true;
     lastAccessed := None; accessCount := 0 |}.

Definition older : Doc :=
  [ (lit "matchId", JStr (lit "m-1"));
    (lit "timestamp", JNum 1600000000000);
    (lit "pointsTable", JArr [JNum 1]) ].

Definition db : Db :=
  {| apilinks := [Sample.link_a; Sample.link_b; Sample.link_c; link_e];
     collections := {[ lit "match_m_1" := [older; Sample.snapshot] ]} |}.

End Fixture.

(** A database as [listCollections()] shows it in a deployment: the
    collections of the users and of the links beside one match
    container. *)
Module Listed.

Definition user : Doc :=
  [ (lit "email", JStr (lit "a@b.c")); (lit "firstName", JStr (lit "A")) ].

Definition db : Db :=
  {| apilinks := [Sample.link_a; Sample.link_b];
     collections :=
       {[ lit "users" := [user];
          lit "apilinks" := [];
          lit "match_m_1" := [Sample.snapshot] ]} |}.

(** The same with one more container, under the name the direct path
    derives from [" m-1 "]. *)
Definition db_raw : Db :=
  with_collection db (lit "match_ m_1 ") [Fixture.older].

End Listed.

(** ** Facts on strings *)

Section StringFacts.

Lemma trimStart_suffix (s : jstring) :
  ∃ pre, s = pre ++ trimStart s ∧ forallb is_white_space pre = true.
Proof.
  induction s as [|c s IH]; simpl.
  - by exists [].
  - destruct (is_white_space c) eqn:Hc.
    + destruct IH as (pre & Hs & Hpre). exists (c :: pre). simpl.
      rewrite Hc, Hpre. split; [by f_equal | done].
    + by exists [].
Qed.

Lemma trimStart_head (s : jstring) (c : N) (t : jstring) :
  trimStart s = c :: t → is_white_space c = false.
Proof.
  induction s as [|d s IH]; simpl; [done|].
  destruct (is_white_space d) eqn:Hd; [done|].
  intros [= -> _]. done.
Qed.

Lemma trimStart_fixed (s : jstring) :
  (∀ c t, s = c :: t → is_white_space c = false) → trimStart s = s.
Proof.
  destruct s as [|c s]; simpl; [done|].
  intros H. by rewrite (H c s eq_refl).
Qed.

Lemma trimStart_idem (s : jstring) : trimStart (trimStart s) = trimStart s.
Proof.
  apply trimStart_fixed. intros c t H. by apply trimStart_head in H.
Qed.

Lemma trimEnd_prefix (s : jstring) :
  ∃ post, s = trimEnd s ++ post ∧ forallb is_white_space post = true.
Proof.
  destruct (trimStart_suffix (rev s)) as (pre & Hs & Hpre).
  exists (rev pre). split.
  - unfold trimEnd. rewrite <- rev_app_distr, <- Hs. by rewrite rev_involutive.
  - rewrite forallb_forall in *. intros c Hc. apply Hpre. by apply in_rev.
Qed.

Lemma trimEnd_last (s t : jstring) (c : N) :
  trimEnd s = t ++ [c] → is_white_space c = false.
Proof.
  unfold trimEnd. intros H.
  apply (f_equal (@rev N)) in H. rewrite rev_involutive, rev_unit in H.
  by apply trimStart_head in H.
Qed.

Lemma trimEnd_fixed (s : jstring) :
  (∀ t c, s = t ++ [c] → is_white_space c = false) → trimEnd s = s.
Proof.
  intros H. unfold trimEnd. rewrite trimStart_fixed.
  - apply rev_involutive.
  - intros c t Hr. apply (H (rev t) c).
    rewrite <- (rev_involutive s), Hr. simpl. done.
Qed.

(** The trimmed string sits inside the original one, between a run of
    white space and a run of white space. *)
Lemma trim_decompose (s : jstring) :
  ∃ pre post, s = pre ++ trim s ++ post
    ∧ forallb is_white_space pre = true
    ∧ forallb is_white_space post = true.
Proof.
  destruct (trimStart_suffix s) as (pre & Hs & Hpre).
  destruct (trimEnd_prefix (trimStart s)) as (post & Ht & Hpost).
  exists pre, post. unfold trim. by rewrite <- Ht.
Qed.

Lemma trim_head (s t : jstring) (c : N) :
  trim s = c :: t → is_white_space c = false.
Proof.
  intros H. destruct (trimEnd_prefix (trimStart s)) as (post & Ht & _).
  fold (trim s) in Ht. rewrite H in Ht. simpl in Ht.
  by apply trimStart_head in Ht.
Qed.

Lemma trim_last (s t : jstring) (c : N) :
  trim s = t ++ [c] → is_white_space c = false.
Proof. apply trimEnd_last. Qed.

Lemma trim_idem (s : jstring) : trim (trim s) = trim s.
Proof.
  unfold trim at 1. rewrite (trimStart_fixed (trim s)).
  - apply trimEnd_fixed. intros t c. apply trim_last.
  - intros c t. apply trim_head.
Qed.

Lemma trim_length (s : jstring) : (length (trim s) ≤ length s)%nat.
Proof.
  destruct (trim_decompose s) as (pre & post & Hs & _).
  rewrite Hs at 2. rewrite !length_app. lia.
Qed.

(** A string is left alone by [trim] exactly when it neither starts nor
    ends with white space. *)
Lemma trim_fixed (s : jstring) :
  (∀ c t, s = c :: t → is_white_space c = false) →
  (∀ t c, s = t ++ [c] → is_white_space c = false) →
  trim s = s.
Proof.
  intros Hh Hl. unfold trim. rewrite (trimStart_fixed s Hh).
  by apply trimEnd_fixed.
Qed.

Lemma trim_nil : trim [] = [].
Proof. reflexivity. Qed.

Lemma replace_hyphens_length (s : jstring) :
  length (replace_hyphens s) = length s.
Proof. apply length_map. Qed.

Lemma replace_hyphens_lookup (s : jstring) (i : nat) :
  replace_hyphens s !! i =
    (fun c => if c =? hyphen then underscore else c) <$> s !! i.
Proof. apply list_lookup_fmap. Qed.

Lemma replace_hyphens_no_hyphen (s : jstring) :
  hyphen ∉ replace_hyphens s.
Proof.
  unfold replace_hyphens. intros H.
  apply list_elem_of_fmap in H as (c & Hc & _).
  destruct (c =? hyphen) eqn:E; [done|].
  apply N.eqb_neq in E. congruence.
Qed.

Lemma replace_hyphens_app (s t : jstring) :
  replace_hyphens (s ++ t) = replace_hyphens s ++ replace_hyphens t.
Proof. apply map_app. Qed.

End StringFacts.

(** ** Facts on the collection operations *)

Section Collection.

Implicit Types (l d : ApiLink) (links : list ApiLink).

Lemma eqb_eq (a b : jstring) : eqb a b = true ↔ a = b.
Proof. unfold eqb. apply bool_decide_eq_true. Qed.

Lemma eqb_refl (a : jstring) : eqb a a = true.
Proof. by apply eqb_eq. Qed.

Lemma eqb_neq (a b : jstring) : eqb a b = false ↔ a ≠ b.
Proof. unfold eqb. apply bool_decide_eq_false. Qed.

Lemma findOne_Some filter links l :
  findOne filter links = Some l → l ∈ links ∧ filter l = true.
Proof.
  unfold findOne. intros H. apply find_some in H as [Hin Hf].
  split; [by apply list_elem_of_In | done].
Qed.

Lemma findOne_None filter links :
  findOne filter links = None ↔ ∀ l, l ∈ links → filter l = false.
Proof.
  unfold findOne. split.
  - intros H l Hl. apply (find_none _ _ H). by apply list_elem_of_In.
  - induction links as [|d links IH]; simpl; [done|].
    intros H. rewrite (H d) by left. apply IH.
    intros l Hl. apply H. by right.
Qed.

(** With the unique index, a filter that fixes the [linkId] finds the
    one link that has it. *)
Lemma findOne_by_linkId filter links l :
  NoDup (map linkId links) →
  l ∈ links → filter l = true →
  (∀ d, filter d = true → linkId d = linkId l) →
  findOne filter links = Some l.
Proof.
  unfold findOne. intros Hnd Hl Hf Hkey.
  induction links as [|d links IH]; simpl; [by apply elem_of_nil in Hl|].
  simpl in Hnd. apply NoDup_cons in Hnd as [Hd Hnd].
  destruct (filter d) eqn:Hfd.
  - apply elem_of_cons in Hl as [->|Hl]; [done|].
    exfalso. apply Hd. rewrite (Hkey d Hfd).
    apply list_elem_of_fmap. by exists l.
  - apply elem_of_cons in Hl as [->|Hl]; [congruence|]. by apply IH.
Qed.

Lemma updateOne_length l links : length (updateOne l links) = length links.
Proof.
  induction links as [|d links IH]; simpl; [done|].
  destruct (Nat.eqb (_id d) (_id l)); simpl; by rewrite ?IH.
Qed.

Lemma updateOne_ids l links :
  map _id (updateOne l links) = map _id links.
Proof.
  induction links as [|d links IH]; simpl; [done|].
  destruct (Nat.eqb (_id d) (_id l)) eqn:E; simpl.
  - apply Nat.eqb_eq in E. by rewrite E.
  - by rewrite IH.
Qed.

(** Writing [l] over the stored [l0]: the other documents stay. *)
Lemma updateOne_spec l l0 links :
  NoDup (map _id links) → l0 ∈ links → _id l = _id l0 →
  ∃ before after,
    links = before ++ l0 :: after
    ∧ updateOne l links = before ++ l :: after.
Proof.
  intros Hnd Hl0 Hid.
  induction links as [|d links IH]; simpl; [by apply elem_of_nil in Hl0|].
  simpl in Hnd. apply NoDup_cons in Hnd as [Hd Hnd].
  destruct (Nat.eqb (_id d) (_id l)) eqn:E.
  - apply Nat.eqb_eq in E.
    apply elem_of_cons in Hl0 as [->|Hl0]; [by exists [], links|].
    exfalso. apply Hd. rewrite E, Hid. apply list_elem_of_fmap. by exists l0.
  - apply Nat.eqb_neq in E.
    apply elem_of_cons in Hl0 as [->|Hl0]; [congruence|].
    destruct (IH Hnd Hl0) as (before & after & -> & Hu).
    exists (d :: before), after. simpl. by rewrite Hu.
Qed.

Lemma updateOne_linkIds l l0 links :
  NoDup (map _id links) → l0 ∈ links → _id l = _id l0 →
  linkId l = linkId l0 →
  map linkId (updateOne l links) = map linkId links.
Proof.
  intros Hnd Hl0 Hid Hlid.
  destruct (updateOne_spec l l0 links Hnd Hl0 Hid) as (b & a & -> & ->).
  rewrite !map_app. simpl. by rewrite Hlid.
Qed.

Lemma findByIdAndDelete_sublist id links :
  sublist (findByIdAndDelete id links) links.
Proof.
  induction links as [|d links IH]; simpl; [done|].
  destruct (Nat.eqb (_id d) id).
  - by apply sublist_cons.
  - by apply sublist_skip.
Qed.

Lemma findByIdAndDelete_spec l0 links :
  NoDup (map _id links) → l0 ∈ links →
  ∃ before after,
    links = before ++ l0 :: after
    ∧ findByIdAndDelete (_id l0) links = before ++ after.
Proof.
  intros Hnd Hl0.
  induction links as [|d links IH]; simpl; [by apply elem_of_nil in Hl0|].
  simpl in Hnd. apply NoDup_cons in Hnd as [Hd Hnd].
  destruct (Nat.eqb (_id d) (_id l0)) eqn:E.
  - apply Nat.eqb_eq in E.
    apply elem_of_cons in Hl0 as [->|Hl0]; [by exists [], links|].
    exfalso. apply Hd. rewrite E. apply list_elem_of_fmap. by exists l0.
  - apply Nat.eqb_neq in E.
    apply elem_of_cons in Hl0 as [->|Hl0]; [congruence|].
    destruct (IH Hnd Hl0) as (before & after & -> & Hu).
    exists (d :: before), after. simpl. by rewrite Hu.
Qed.

Lemma new_ObjectId_fresh links : new_ObjectId links ∉ map _id links.
Proof.
  unfold new_ObjectId. intros H.
  assert (Hle : ∀ n, n ∈ map _id links →
                     (n ≤ foldr Nat.max 0 (map _id links))%nat).
  { generalize (map _id links). intros ns. induction ns as [|k ns IH]; simpl.
    - intros n Hn. by apply elem_of_nil in Hn.
    - intros n Hn. apply elem_of_cons in Hn as [->|Hn]; [lia|].
      specialize (IH n Hn). lia. }
  specialize (Hle _ H). lia.
Qed.

End Collection.

(** ** The store invariant is maintained *)

Section Invariant.

Implicit Types (l d : ApiLink) (links : list ApiLink) (db : Db).

Lemma links_ok_nil : links_ok [].
Proof. split; simpl; constructor. Qed.

Lemma save_Some l links links' :
  save l links = Some links' →
  validate l = true ∧ links' = updateOne l links.
Proof.
  unfold save. destruct (validate l); [|done]. by intros [= <-].
Qed.

Lemma save_valid l links :
  validate l = true → save l links = Some (updateOne l links).
Proof. unfold save. by intros ->. Qed.

Lemma save_ok l l0 links links' :
  links_ok links → l0 ∈ links → _id l = _id l0 → linkId l = linkId l0 →
  save l links = Some links' → links_ok links'.
Proof.
  intros [Hv Hi Hk] Hl0 Hid Hlid Hs.
  apply save_Some in Hs as [Hval ->].
  split.
  - destruct (updateOne_spec l l0 links Hi Hl0 Hid) as (b & a & -> & ->).
    apply Forall_app in Hv as [Hb Ha]. apply Forall_cons in Ha as [_ Ha].
    apply Forall_app. split; [done|]. by apply Forall_cons.
  - by rewrite updateOne_ids.
  - by rewrite (updateOne_linkIds l l0).
Qed.

Lemma create_Some uid lid mid ty links doc links' :
  create uid lid mid ty links = Some (doc, links') →
  doc = {| _id := new_ObjectId links; userId := uid; linkId := lid;
           matchId := mid; type := ty; isActive := true;
           lastAccessed := None; accessCount := 0%Z |}
  ∧ links' = links ++ [doc]
  ∧ validate doc = true
  ∧ lid ∉ map linkId links.
Proof.
  unfold create.
  match goal with |- context [validate ?d] => set (doc0 := d) end.
  destruct (validate doc0) eqn:Hv; simpl; [|done].
  destruct (existsb _ links) eqn:He; simpl; [done|].
  intros [= <- <-]. repeat split; try done.
  intros Hin. apply list_elem_of_fmap in Hin as (d & -> & Hd).
  assert (existsb (fun d0 => eqb (linkId d0) (linkId d)) links = true).
  { apply existsb_exists. exists d. split; [by apply list_elem_of_In|].
    apply eqb_refl. }
  congruence.
Qed.

Lemma create_ok uid lid mid ty links doc links' :
  links_ok links →
  create uid lid mid ty links = Some (doc, links') → links_ok links'.
Proof.
  intros [Hv Hi Hk] Hc.
  apply create_Some in Hc as (Hdoc & -> & Hval & Hfresh).
  split.
  - apply Forall_app. split; [done|]. by apply Forall_singleton.
  - rewrite map_app. simpl. apply NoDup_app. split; [done|]. split.
    + intros n Hn Hn'. apply list_elem_of_singleton in Hn'. subst n.
      rewrite Hdoc in Hn. simpl in Hn. by apply new_ObjectId_fresh in Hn.
    + apply NoDup_singleton.
  - rewrite map_app. simpl. apply NoDup_app. split; [done|]. split.
    + intros n Hn Hn'. apply list_elem_of_singleton in Hn'. subst n.
      rewrite Hdoc in Hn. simpl in Hn. done.
    + apply NoDup_singleton.
Qed.

Lemma findByIdAndDelete_ok id links :
  links_ok links → links_ok (findByIdAndDelete id links).
Proof.
  intros [Hv Hi Hk].
  pose proof (findByIdAndDelete_sublist id links) as Hsub.
  split.
  - rewrite Forall_forall in *. intros x Hx. apply Hv.
    by eapply elem_of_sublist.
  - eapply sublist_NoDup; [exact Hi|]. by apply (fmap_sublist _id).
  - eapply sublist_NoDup; [exact Hk|]. by apply (fmap_sublist linkId).
Qed.

End Invariant.

(** ** The public resolver *)

Section Resolver.

Implicit Types (l d : ApiLink) (links : list ApiLink) (db : Db).

Lemma collectionExists_lookup db name :
  collectionExists db name = false ↔ collections db !! name = None.
Proof.
  unfold collectionExists. rewrite bool_decide_eq_false.
  apply not_elem_of_dom.
Qed.

Lemma collection_lookup db name docs :
  collections db !! name = Some docs → collection db name = docs.
Proof. unfold collection. by intros ->. Qed.

Lemma active_with_true lid l :
  active_with lid l = true ↔ linkId l = lid ∧ isActive l = true.
Proof.
  unfold active_with. rewrite andb_true_iff, eqb_eq.
  by destruct (isActive l).
Qed.

Lemma validate_accessed now l : validate (accessed now l) = validate l.
Proof. reflexivity. Qed.

(** A token that no enabled link has is rejected, and nothing is
    written. *)
Lemma public_get_rejected now lid db :
  (∀ l, l ∈ apilinks db → linkId l = lid → isActive l = false) →
  public_get now lid db = (fail 404 "Not found", db).
Proof.
  intros H. unfold public_get.
  replace (findOne (active_with lid) (apilinks db)) with (@None ApiLink);
    [done|].
  symmetry. apply findOne_None. intros l Hl.
  destruct (active_with lid l) eqn:E; [|done].
  apply active_with_true in E as [Hlid Hact].
  rewrite (H l Hl Hlid) in Hact. done.
Qed.

(** A token that the filter accepts: the link is written back with its
    telemetry, then the container is read. *)
Lemma public_get_accepted now lid db l :
  findOne (active_with lid) (apilinks db) = Some l →
  validate l = true →
  public_get now lid db =
    (resolved db (public_collectionName (matchId l)) (type l),
     with_apilinks db (updateOne (accessed now l) (apilinks db))).
Proof.
  intros Hf Hv. unfold public_get. rewrite Hf.
  fold (accessed now l).
  rewrite save_valid by (by rewrite validate_accessed).
  cbn [matchId type accessed].
  unfold resolved.
  destruct (collections db !! public_collectionName (matchId l))
    as [docs|] eqn:Hc.
  - replace (collectionExists _ _) with true; simpl.
    + unfold collection. simpl. rewrite Hc. simpl.
      by destruct (findLatest docs).
    + symmetry. unfold collectionExists. apply bool_decide_eq_true.
      apply elem_of_dom. simpl. by rewrite Hc.
  - replace (collectionExists _ _) with false; [done|].
    symmetry. by apply collectionExists_lookup.
Qed.

Lemma find_active db l :
  links_ok (apilinks db) → l ∈ apilinks db → isActive l = true →
  findOne (active_with (linkId l)) (apilinks db) = Some l.
Proof.
  intros [_ _ Hk] Hl Ha. apply findOne_by_linkId; try done.
  - by apply active_with_true.
  - intros d Hd. by apply active_with_true in Hd as [-> _].
Qed.

Lemma links_ok_valid links l :
  links_ok links → l ∈ links → validate l = true.
Proof. intros [Hv _ _] Hl. rewrite Forall_forall in Hv. by apply Hv. Qed.

End Resolver.

(** ** Rejected and accepted tokens *)

Section Telemetry.

Implicit Types (l d : ApiLink) (links : list ApiLink) (db : Db).

Lemma linkId_unique links l d :
  NoDup (map linkId links) → l ∈ links → d ∈ links →
  linkId d = linkId l → d = l.
Proof.
  intros Hnd Hl Hd Heq.
  induction links as [|x links IH]; [by apply elem_of_nil in Hl|].
  simpl in Hnd. apply NoDup_cons in Hnd as [Hx Hnd].
  apply elem_of_cons in Hl as [->|Hl]; apply elem_of_cons in Hd as [->|Hd].
  - done.
  - exfalso. apply Hx. rewrite <- Heq. by apply list_elem_of_fmap_2.
  - exfalso. apply Hx. rewrite Heq. by apply list_elem_of_fmap_2.
  - by apply IH.
Qed.

Lemma sample_links_ok : links_ok (apilinks Sample.db).
Proof.
  split.
  - repeat constructor.
  - apply (bool_decide_unpack _). by vm_compute.
  - apply (bool_decide_unpack _). by vm_compute.
Qed.

(** C1: a token that no link has and a token whose link is disabled get
    the same response from the public resolver, status 404 with the body
    [{success: false, error: 'Not found'}], and neither request writes
    to the database. *)
Theorem C1_missing_and_disabled_alike
    (now1 now2 : Z) (lid : jstring) (db1 db2 : Db) (l : ApiLink) :
  (∀ d, d ∈ apilinks db1 → linkId d ≠ lid) →
  links_ok (apilinks db2) →
  l ∈ apilinks db2 → linkId l = lid → isActive l = false →
  public_get now1 lid db1 = (fail 404 "Not found", db1)
  ∧ public_get now2 lid db2 = (fail 404 "Not found", db2)
  ∧ (public_get now1 lid db1).1 = (public_get now2 lid db2).1.
Proof.
  intros Hmissing Hok Hl Hlid Hoff.
  assert (H1 : public_get now1 lid db1 = (fail 404 "Not found", db1)).
  { apply public_get_rejected. intros d Hd Hd'. by apply Hmissing in Hd. }
  assert (H2 : public_get now2 lid db2 = (fail 404 "Not found", db2)).
  { apply public_get_rejected. intros d Hd Hd'.
    destruct Hok as [_ _ Hk].
    rewrite (linkId_unique _ l d Hk Hl Hd); [done | congruence]. }
  by rewrite H1, H2.
Qed.

Lemma C1_witness :
  public_get 10 (lit "tokenB") (with_apilinks Sample.db [Sample.link_a])
    = (fail 404 "Not found", with_apilinks Sample.db [Sample.link_a])
  ∧ public_get 20 (lit "tokenB") Sample.db = (fail 404 "Not found", Sample.db)
  ∧ (public_get 10 (lit "tokenB")
       (with_apilinks Sample.db [Sample.link_a])).1
    = (public_get 20 (lit "tokenB") Sample.db).1.
Proof.
  apply (C1_missing_and_disabled_alike 10 20 (lit "tokenB")
           (with_apilinks Sample.db [Sample.link_a]) Sample.db
           Sample.link_b).
  - intros d Hd. apply list_elem_of_singleton in Hd. by subst d.
  - exact sample_links_ok.
  - apply list_elem_of_further, list_elem_of_here.
  - reflexivity.
  - reflexivity.
Defined.

(** C2: when the token of an enabled link is presented, the stored link
    is replaced by one whose [accessCount] is one more and whose
    [lastAccessed] is the time of the resolution, nothing else of the
    database changes, and this holds whatever the container lookup that
    follows returns; when the match has no container the response is the
    404 [Match data not found] and the stored telemetry is the updated
    one. *)
Theorem C2_access_counted_before_fetch (now : Z) (db : Db) (l : ApiLink) :
  links_ok (apilinks db) → l ∈ apilinks db → isActive l = true →
  ∃ l' before after,
    apilinks db = before ++ l :: after
    ∧ apilinks (public_get now (linkId l) db).2 = before ++ l' :: after
    ∧ collections (public_get now (linkId l) db).2 = collections db
    ∧ accessCount l' = (accessCount l + 1)%Z
    ∧ lastAccessed l' = Some now
    ∧ (_id l', userId l', linkId l', matchId l', type l', isActive l')
      = (_id l, userId l, linkId l, matchId l, type l, isActive l)
    ∧ (collections db !! public_collectionName (matchId l) = None →
       (public_get now (linkId l) db).1 = fail 404 "Match data not found").
Proof.
  intros Hok Hl Hact.
  rewrite (public_get_accepted now (linkId l) db l)
    by eauto using find_active, links_ok_valid.
  destruct (updateOne_spec (accessed now l) l (apilinks db))
    as (before & after & Hdb & Hup); [by destruct Hok | done | done |].
  exists (accessed now l), before, after. simpl.
  repeat split; try done.
  intros Hnone. unfold resolved. by rewrite Hnone.
Qed.

Lemma C2_witness :
  ∃ l' before after,
    apilinks Sample.db = before ++ Sample.link_c :: after
    ∧ apilinks (public_get 99 (lit "tokenC") Sample.db).2
      = before ++ l' :: after
    ∧ collections (public_get 99 (lit "tokenC") Sample.db).2
      = collections Sample.db
    ∧ accessCount l' = 1%Z
    ∧ lastAccessed l' = Some 99%Z
    ∧ (_id l', userId l', linkId l', matchId l', type l', isActive l')
      = (3%nat, 8%nat, lit "tokenC", lit "m-2", lit "alive_status", true)
    ∧ (collections Sample.db !! lit "match_m_2" = None →
       (public_get 99 (lit "tokenC") Sample.db).1
       = fail 404 "Match data not found").
Proof.
  apply (C2_access_counted_before_fetch 99 Sample.db Sample.link_c).
  - exact sample_links_ok.
  - apply list_elem_of_further, list_elem_of_further, list_elem_of_here.
  - reflexivity.
Defined.

End Telemetry.

(** ** Container names *)

Section ContainerNames.

Implicit Types (m s : jstring) (db : Db).

Lemma split_on_nonempty sep s : split_on sep s ≠ [].
Proof.
  destruct s as [|c s]; simpl; [done|].
  destruct (c =? sep); [done|]. by destruct (split_on sep s).
Qed.

Lemma split_on_parts sep s w :
  w ∈ split_on sep s → sep ∉ w.
Proof.
  revert w. induction s as [|c s IH]; simpl; intros w Hw.
  - apply list_elem_of_singleton in Hw as ->. apply not_elem_of_nil.
  - destruct (c =? sep) eqn:E.
    + apply elem_of_cons in Hw as [->|Hw]; [apply not_elem_of_nil|eauto].
    + apply N.eqb_neq in E.
      destruct (split_on sep s) as [|v vs] eqn:Hs.
      * apply list_elem_of_singleton in Hw as ->.
        intros H. apply list_elem_of_singleton in H. congruence.
      * apply elem_of_cons in Hw as [->|Hw].
        -- intros H. apply elem_of_cons in H as [H|H]; [congruence|].
           by apply (IH v); [left|].
        -- apply IH. by right.
Qed.

(** Replacing every hyphen is cutting at the hyphens and joining with
    underscores. *)
Lemma replace_hyphens_split_join s :
  replace_hyphens s = join_with underscore (split_on hyphen s).
Proof.
  induction s as [|c s IH]; simpl; [done|].
  pose proof (split_on_nonempty hyphen s) as Hne.
  destruct (c =? hyphen) eqn:E.
  - simpl. destruct (split_on hyphen s) as [|v vs] eqn:Hs; [done|].
    by rewrite IH.
  - destruct (split_on hyphen s) as [|v vs] eqn:Hs; [done|].
    rewrite IH. simpl. by destruct vs.
Qed.

Lemma white_space_kept c :
  is_white_space (if c =? hyphen then underscore else c) = is_white_space c.
Proof.
  destruct (c =? hyphen) eqn:E; [|done].
  apply N.eqb_eq in E. by subst c.
Qed.

Lemma no_hyphen_in_public_name m : hyphen ∉ public_collectionName m.
Proof.
  unfold public_collectionName. intros H.
  apply elem_of_app in H as [H|H].
  - vm_compute in H. repeat (apply elem_of_cons in H as [H|H]; [done|]).
    by apply elem_of_nil in H.
  - by apply replace_hyphens_no_hyphen in H.
Qed.

(** C3: the container the resolver reads for an accepted link is named
    by the link's [matchId] alone: the [matchId] without the white space
    around it, cut at its hyphens and joined by underscores, after the
    marker [match_]; the name holds no hyphen, and the reply is the one
    that this container decides. *)
Theorem C3_container_name_of_matchId
    (now : Z) (lid : jstring) (db : Db) (l : ApiLink) :
  findOne (active_with lid) (apilinks db) = Some l →
  validate l = true →
  ∃ pre core post,
    matchId l = pre ++ core ++ post
    ∧ forallb is_white_space pre = true
    ∧ forallb is_white_space post = true
    ∧ (∀ c t, core = c :: t → is_white_space c = false)
    ∧ (∀ t c, core = t ++ [c] → is_white_space c = false)
    ∧ public_collectionName (matchId l)
      = (lit "match_" ++ join_with underscore (split_on hyphen core))
    ∧ (hyphen ∉ public_collectionName (matchId l))
    ∧ (public_get now lid db).1
      = resolved db
          (lit "match_" ++ join_with underscore (split_on hyphen core))
          (type l).
Proof.
  intros Hf Hv.
  destruct (trim_decompose (matchId l)) as (pre & post & Hm & Hpre & Hpost).
  exists pre, (trim (matchId l)), post.
  rewrite <- replace_hyphens_split_join.
  fold (public_collectionName (matchId l)).
  rewrite (public_get_accepted now lid db l Hf Hv).
  repeat split; try done.
  - intros c t. apply trim_head.
  - intros t c. apply trim_last.
  - apply no_hyphen_in_public_name.
Qed.

Lemma C3_witness :
  ∃ pre core post,
    lit "m-1" = pre ++ core ++ post
    ∧ forallb is_white_space pre = true
    ∧ forallb is_white_space post = true
    ∧ (∀ c t, core = c :: t → is_white_space c = false)
    ∧ (∀ t c, core = t ++ [c] → is_white_space c = false)
    ∧ public_collectionName (lit "m-1")
      = (lit "match_" ++ join_with underscore (split_on hyphen core))
    ∧ (hyphen ∉ public_collectionName (lit "m-1"))
    ∧ (public_get 5 (lit "tokenA") Sample.db).1
      = resolved Sample.db
          (lit "match_" ++ join_with underscore (split_on hyphen core))
          (lit "points_table").
Proof.
  apply (C3_container_name_of_matchId 5 (lit "tokenA") Sample.db
           Sample.link_a).
  - reflexivity.
  - reflexivity.
Defined.

Lemma trim_changes s :
  trim s ≠ s →
  (∃ c t, s = c :: t ∧ is_white_space c = true)
  ∨ (∃ t c, s = t ++ [c] ∧ is_white_space c = true).
Proof.
  intros Hne.
  destruct s as [|c t]; [done|].
  destruct (is_white_space c) eqn:Hc; [left; eauto|].
  right. destruct (exists_last (l := c :: t)) as (t' & c' & Hs); [done|].
  destruct (is_white_space c') eqn:Hc'; [eauto|].
  exfalso. apply Hne. apply trim_fixed.
  - intros c0 t0 [= <- <-]. done.
  - intros t0 c0 H0. rewrite Hs in H0.
    apply app_inj_tail in H0 as [_ <-]. done.
Qed.

(** A name the link path derives never equals the name the direct path
    derives from an identifier with white space around it. *)
Lemma livescore_name_not_public m x :
  trim m ≠ m → livescore_collectionName m ≠ public_collectionName x.
Proof.
  intros Hne Heq. unfold livescore_collectionName, public_collectionName in Heq.
  apply app_inv_head in Heq.
  apply trim_changes in Hne as [(c & t & -> & Hc)|(t & c & -> & Hc)].
  - simpl in Heq.
    destruct (replace_hyphens (trim x)) as [|c' t'] eqn:Hx; [done|].
    injection Heq as Hc' _.
    assert (Hw : is_white_space c' = false).
    { unfold replace_hyphens in Hx.
      destruct (trim x) as [|y ys] eqn:Ht; [done|].
      simpl in Hx. injection Hx as <- _.
      rewrite white_space_kept. by eapply trim_head. }
    rewrite <- Hc', white_space_kept in Hw. congruence.
  - rewrite replace_hyphens_app in Heq. simpl in Heq.
    destruct (exists_last (l := trim x)) as (ys & y & Ht).
    { intros Hnil. rewrite Hnil in Heq. simpl in Heq.
      by destruct (replace_hyphens t). }
    rewrite Ht, replace_hyphens_app in Heq. simpl in Heq.
    apply app_inj_tail in Heq as [_ Hc'].
    assert (Hw : is_white_space y = false) by (by eapply trim_last).
    rewrite <- (white_space_kept y), <- Hc', white_space_kept in Hw.
    congruence.
Qed.

End ContainerNames.

(** ** The direct reads *)

Section DirectReads.

Implicit Types (m : jstring) (db : Db).

Lemma public_name_trim m :
  public_collectionName (trim m) = public_collectionName m.
Proof. unfold public_collectionName. by rewrite trim_idem. Qed.

Lemma livescore_full_missing m db :
  collections db !! livescore_collectionName m = None →
  livescore_full m db = fail 404 "Match not found".
Proof.
  intros H. unfold livescore_full.
  apply collectionExists_lookup in H. by rewrite H.
Qed.

Lemma livescore_get_missing m ty db :
  includes [lit "alive_status"; lit "points_table"] ty = true →
  collections db !! livescore_collectionName m = None →
  livescore_get m ty db = fail 404 "Match not found".
Proof.
  intros Hty H. unfold livescore_get. rewrite Hty.
  assert (truthy ty = true) as ->.
  { destruct ty as [| | | |s| |]; try done.
    destruct s; [|done]. by vm_compute in Hty. }
  simpl. apply collectionExists_lookup in H. by rewrite H.
Qed.

Lemma replace_hyphens_white_space (s : jstring) :
  forallb is_white_space s = true → replace_hyphens s = s.
Proof.
  induction s as [|c s IH]; simpl; [done|].
  intros H. apply andb_true_iff in H as [Hc Hs].
  rewrite (IH Hs). f_equal.
  destruct (c =? hyphen) eqn:E; [|done].
  apply N.eqb_eq in E. by subst c.
Qed.

Lemma with_collection_other db name docs name' :
  name ≠ name' →
  collectionExists (with_collection db name docs) name'
  = collectionExists db name'
  ∧ collection (with_collection db name docs) name' = collection db name'.
Proof.
  intros Hne. unfold collectionExists, collection, with_collection.
  cbn [collections]. rewrite lookup_insert_ne by done. split; [|done].
  apply bool_decide_ext. rewrite dom_insert_L.
  rewrite elem_of_union, elem_of_singleton. split; [|by right].
  by intros [->|].
Qed.

Lemma livescore_full_404_iff m db :
  livescore_full m db = fail 404 "Match not found"
  ↔ collections db !! livescore_collectionName m = None.
Proof.
  split; [|apply livescore_full_missing].
  destruct (collections db !! livescore_collectionName m) as [docs|] eqn:E;
    [|done].
  unfold livescore_full.
  replace (collectionExists db (livescore_collectionName m)) with true.
  - cbn [negb]. by destruct (findLatest _).
  - symmetry. apply bool_decide_eq_true, elem_of_dom. by rewrite E.
Qed.

Lemma livescore_get_404_iff m ty db :
  includes [lit "alive_status"; lit "points_table"] ty = true →
  (livescore_get m ty db = fail 404 "Match not found"
   ↔ collections db !! livescore_collectionName m = None).
Proof.
  intros Hty. split; [|by apply livescore_get_missing].
  destruct (collections db !! livescore_collectionName m) as [docs|] eqn:E;
    [|done].
  unfold livescore_get. rewrite Hty.
  assert (truthy ty = true) as ->.
  { destruct ty as [| | | |s| |]; try done.
    destruct s; [|done]. by vm_compute in Hty. }
  replace (collectionExists db (livescore_collectionName m)) with true.
  - cbn [negb orb]. by destruct (findLatest _).
  - symmetry. apply bool_decide_eq_true, elem_of_dom. by rewrite E.
Qed.

Lemma livescore_full_other_container m db name docs :
  name ≠ livescore_collectionName m →
  livescore_full m (with_collection db name docs) = livescore_full m db.
Proof.
  intros Hne. unfold livescore_full.
  by destruct (with_collection_other db name docs _ Hne) as [-> ->].
Qed.

Lemma livescore_get_other_container m ty db name docs :
  name ≠ livescore_collectionName m →
  livescore_get m ty (with_collection db name docs) = livescore_get m ty db.
Proof.
  intros Hne. unfold livescore_get.
  by destruct (with_collection_other db name docs _ Hne) as [-> ->].
Qed.

(** C10, as amended: the two direct read paths derive the container
    name from the raw path parameter: for a [matchId] with white space at
    an end, the
    name is the marker [match_], then the white space in front, then what
    the link path puts after the marker (the trimmed [matchId] cut at its
    hyphens and joined by underscores), then the white space behind; so
    it differs from the name the link path derives, which is the same for
    the [matchId] and for its trimmed form.  Each direct route answers
    404 [Match not found] exactly when no collection carries the name it
    derives, and a container under the link path's name, whatever it
    holds, does not change the answer of a direct route. *)
Theorem C10_direct_read_keeps_white_space
    (m : jstring) (db : Db) (docs : list Doc) :
  trim m ≠ m →
  (∃ pre post,
     m = pre ++ trim m ++ post
     ∧ forallb is_white_space pre = true
     ∧ forallb is_white_space post = true
     ∧ (pre ≠ [] ∨ post ≠ [])
     ∧ livescore_collectionName m
       = (lit "match_" ++ pre
          ++ join_with underscore (split_on hyphen (trim m)) ++ post)
     ∧ public_collectionName m
       = (lit "match_" ++ join_with underscore (split_on hyphen (trim m))))
  ∧ livescore_collectionName m ≠ public_collectionName m
  ∧ public_collectionName (trim m) = public_collectionName m
  ∧ (livescore_get m (JStr (lit "points_table")) db
       = fail 404 "Match not found"
     ↔ collections db !! livescore_collectionName m = None)
  ∧ (livescore_get m (JStr (lit "alive_status")) db
       = fail 404 "Match not found"
     ↔ collections db !! livescore_collectionName m = None)
  ∧ (livescore_full m db = fail 404 "Match not found"
     ↔ collections db !! livescore_collectionName m = None)
  ∧ collections (with_collection db (public_collectionName m) docs)
      !! public_collectionName m = Some docs
  ∧ (∀ ty, livescore_get m ty
             (with_collection db (public_collectionName m) docs)
           = livescore_get m ty db)
  ∧ livescore_full m (with_collection db (public_collectionName m) docs)
    = livescore_full m db.
Proof.
  intros Hne.
  assert (Hdiff : public_collectionName m ≠ livescore_collectionName m).
  { intros Heq. by apply (livescore_name_not_public m m). }
  split.
  { destruct (trim_decompose m) as (pre & post & Hm & Hpre & Hpost).
    exists pre, post. split; [done|]. split; [done|]. split; [done|].
    split.
    - destruct pre as [|c pre]; [|by left]. right. intros ->.
      apply Hne. rewrite Hm at 2. simpl. by rewrite app_nil_r.
    - split.
      + unfold livescore_collectionName. rewrite Hm at 1.
        rewrite !replace_hyphens_app.
        rewrite (replace_hyphens_white_space pre Hpre).
        rewrite (replace_hyphens_white_space post Hpost).
        by rewrite replace_hyphens_split_join.
      + unfold public_collectionName. by rewrite replace_hyphens_split_join. }
  split; [by apply not_eq_sym|].
  split; [apply public_name_trim|].
  split; [by apply livescore_get_404_iff|].
  split; [by apply livescore_get_404_iff|].
  split; [apply livescore_full_404_iff|].
  split.
  { unfold with_collection. cbn [collections]. apply lookup_insert_eq. }
  split.
  - intros ty. by apply livescore_get_other_container.
  - by apply livescore_full_other_container.
Qed.

Lemma C10_witness :
  collections Listed.db !! lit "match_m_1" = Some [Sample.snapshot]
  ∧ (public_get 5 (lit "tokenA") Listed.db).1.(status) = 200%nat
  ∧ livescore_collectionName (lit " m-1 ") = lit "match_ m_1 "
  ∧ public_collectionName (lit " m-1 ") = lit "match_m_1"
  ∧ livescore_get (lit " m-1 ") (JStr (lit "points_table")) Listed.db
    = fail 404 "Match not found"
  ∧ livescore_get (lit " m-1 ") (JStr (lit "alive_status")) Listed.db
    = fail 404 "Match not found"
  ∧ livescore_full (lit " m-1 ") Listed.db = fail 404 "Match not found"
  ∧ livescore_full (lit " m-1 ")
      (with_collection Listed.db (lit "match_m_1") [Fixture.older])
    = fail 404 "Match not found".
Proof.
  assert (Hne : trim (lit " m-1 ") ≠ lit " m-1 ") by done.
  destruct (C10_direct_read_keeps_white_space (lit " m-1 ") Listed.db
              [Fixture.older] Hne)
    as (_ & _ & _ & Hpt & Has & Hfull & _ & _ & Hsame).
  assert (Hnone : collections Listed.db
                    !! livescore_collectionName (lit " m-1 ") = None)
    by reflexivity.
  split; [reflexivity|]. split; [reflexivity|].
  split; [reflexivity|]. split; [reflexivity|].
  split; [by apply Hpt|]. split; [by apply Has|].
  split; [by apply Hfull|].
  change (lit "match_m_1") with (public_collectionName (lit " m-1 ")).
  rewrite Hsame. by apply Hfull.
Defined.

(** The 404 is not unconditional: where a collection carries the name
    the direct path derives, white space included, the direct routes
    read it, beside the container of the trimmed match. *)
Lemma C10_counterexample :
  trim (lit " m-1 ") = lit "m-1"
  ∧ trim (lit " m-1 ") ≠ lit " m-1 "
  ∧ collections Listed.db_raw !! public_collectionName (lit "m-1")
    = Some [Sample.snapshot]
  ∧ (public_get 5 (lit "tokenA") Listed.db_raw).1.(status) = 200%nat
  ∧ livescore_collectionName (lit " m-1 ") = lit "match_ m_1 "
  ∧ collections Listed.db_raw !! livescore_collectionName (lit " m-1 ")
    = Some [Fixture.older]
  ∧ livescore_full (lit " m-1 ") Listed.db_raw
    = {| status := 200;
         body := MatchData (JStr (lit "m-1")) (JNum 1600000000000)
                   (JObj Fixture.older) |}
  ∧ livescore_full (lit " m-1 ") Listed.db_raw ≠ fail 404 "Match not found"
  ∧ livescore_get (lit " m-1 ") (JStr (lit "points_table")) Listed.db_raw
    ≠ fail 404 "Match not found"
  ∧ ¬ (∀ m db,
         trim m ≠ m →
         is_Some (collections db !! public_collectionName (trim m)) →
         livescore_full m db = fail 404 "Match not found").
Proof.
  assert (Hfull : livescore_full (lit " m-1 ") Listed.db_raw
                  = {| status := 200;
                       body := MatchData (JStr (lit "m-1"))
                                 (JNum 1600000000000)
                                 (JObj Fixture.older) |})
    by reflexivity.
  split; [reflexivity|]. split; [done|].
  split; [reflexivity|]. split; [reflexivity|].
  split; [reflexivity|]. split; [reflexivity|].
  split; [exact Hfull|].
  split; [by rewrite Hfull|].
  split.
  - intros H.
    apply (livescore_get_404_iff (lit " m-1 ") (JStr (lit "points_table"))
             Listed.db_raw eq_refl) in H.
    discriminate H.
  - intros H.
    specialize (H (lit " m-1 ") Listed.db_raw).
    rewrite Hfull in H.
    assert (Hno : {| status := 200;
                     body := MatchData (JStr (lit "m-1"))
                               (JNum 1600000000000)
                               (JObj Fixture.older) |}
                  ≠ fail 404 "Match not found") by done.
    apply Hno, H; [done|]. by eexists.
Qed.

End DirectReads.

(** ** The view projection *)

Section Projection.

Implicit Types (s : Doc) (k : jstring).

(** Reading a field of the document is looking it up in the map of its
    fields. *)
Lemma get_field_lookup s k :
  get_field s k
  = default JUndefined ((list_to_map s : gmap jstring JsVal) !! k).
Proof.
  induction s as [|[k' v] s IH]; simpl; [done|].
  destruct (eqb k' k) eqn:E.
  - apply eqb_eq in E as ->. by rewrite lookup_insert_eq.
  - apply eqb_neq in E. by rewrite lookup_insert_ne.
Qed.

Lemma js_or_field s k empty :
  js_or (get_field s k) empty = field_or s k empty.
Proof.
  unfold js_or, field_or. rewrite get_field_lookup.
  by destruct (_ !! k).
Qed.

Lemma field_or_absent s k empty :
  k ∉ map fst s → field_or s k empty = empty.
Proof.
  intros H. unfold field_or.
  by rewrite (not_elem_of_list_to_map_1 _ _ H).
Qed.

Lemma field_or_never_undefined s k empty :
  truthy empty = true → truthy (field_or s k empty) = true.
Proof.
  intros H. unfold field_or.
  destruct (_ !! k) as [v|]; [|done]. by destruct (truthy v) eqn:E.
Qed.

(** C4, as amended: the projection is a total function of the snapshot.
    For [points_table] it is [{pointsTable, matchSummary}] and for
    [alive_status] it is [{teamStats, matchSummary}], each field being
    the snapshot's field when the snapshot has it with a value that is
    not falsy, and else the empty list (the empty object for the
    summary): a field that is absent, [null], [false], [0] or [''] comes
    out as the empty container.  For [full] it is the whole snapshot; the
    direct read path projects the two filtered views in the same way; and
    no projected field is ever [undefined]. *)
Theorem C4_projection_total (s : Doc) :
  public_responseData (lit "points_table") s
    = JObj [ (lit "pointsTable", field_or s (lit "pointsTable") (JArr []));
             (lit "matchSummary",
              field_or s (lit "MatchSummary1") (JObj [])) ]
  ∧ public_responseData (lit "alive_status") s
    = JObj [ (lit "teamStats", field_or s (lit "TeamStats1") (JArr []));
             (lit "matchSummary",
              field_or s (lit "MatchSummary1") (JObj [])) ]
  ∧ public_responseData (lit "full") s = JObj s
  ∧ livescore_responseData (JStr (lit "points_table")) s
    = public_responseData (lit "points_table") s
  ∧ livescore_responseData (JStr (lit "alive_status")) s
    = public_responseData (lit "alive_status") s
  ∧ (∀ k,
       (k ∉ map fst s → field_or s k (JArr []) = JArr []
                        ∧ field_or s k (JObj []) = JObj [])
       ∧ truthy (field_or s k (JArr [])) = true
       ∧ truthy (field_or s k (JObj [])) = true).
Proof.
  repeat split.
  - unfold public_responseData.
    replace (eqb (lit "points_table") (lit "points_table")) with true
      by (symmetry; apply eqb_refl).
    by rewrite !js_or_field.
  - unfold public_responseData.
    replace (eqb (lit "alive_status") (lit "points_table")) with false
      by (symmetry; by apply eqb_neq).
    replace (eqb (lit "alive_status") (lit "alive_status")) with true
      by (symmetry; apply eqb_refl).
    by rewrite !js_or_field.
  - by apply field_or_absent.
  - by apply field_or_absent.
  - by apply field_or_never_undefined.
  - by apply field_or_never_undefined.
Qed.

Lemma C4_witness :
  (lit "pointsTable" ∉ map fst [(lit "matchId", JStr (lit "m-1"))] →
     field_or [(lit "matchId", JStr (lit "m-1"))] (lit "pointsTable")
       (JArr []) = JArr []
     ∧ field_or [(lit "matchId", JStr (lit "m-1"))] (lit "pointsTable")
         (JObj []) = JObj [])
  ∧ public_responseData (lit "points_table")
      [(lit "matchId", JStr (lit "m-1"))]
    = JObj [ (lit "pointsTable", JArr []); (lit "matchSummary", JObj []) ].
Proof.
  pose proof (C4_projection_total [(lit "matchId", JStr (lit "m-1"))])
    as (Hpt & _ & _ & _ & _ & Hk).
  split; [apply (Hk (lit "pointsTable"))|].
  rewrite Hpt. reflexivity.
Defined.

(** C4 as the specification states it fails: for a snapshot whose
    [pointsTable] is the number 0, the specification's projection, which
    defaults with [??], keeps the 0, and the code, which defaults with
    [||], answers the empty list. *)
Lemma C4_counterexample :
  public_responseData (lit "points_table") [ (lit "pointsTable", JNum 0) ]
  = JObj [ (lit "pointsTable", JArr []); (lit "matchSummary", JObj []) ]
  ∧ spec_responseData (lit "points_table") [ (lit "pointsTable", JNum 0) ]
    = JObj [ (lit "pointsTable", JNum 0); (lit "matchSummary", JObj []) ]
  ∧ public_responseData (lit "points_table") [ (lit "pointsTable", JNum 0) ]
    ≠ spec_responseData (lit "points_table") [ (lit "pointsTable", JNum 0) ]
  ∧ ¬ (∀ ty s, public_responseData ty s = spec_responseData ty s).
Proof.
  split; [reflexivity|]. split; [reflexivity|]. split; [done|].
  intros H.
  by specialize (H (lit "points_table") [ (lit "pointsTable", JNum 0) ]).
Qed.

Lemma js_or_nullish a b :
  truthy a = true ∨ a = JUndefined ∨ a = JNull →
  js_or a b = js_nullish_or a b.
Proof.
  intros [H | [-> | ->]]; [|done..].
  unfold js_or. rewrite H. by destruct a.
Qed.

(** Where the two projections agree: on every snapshot whose three
    projected fields are absent, [null] or not falsy, the snapshots whose
    fields are lists and objects among them. *)
Lemma projection_as_specified (ty : jstring) (s : Doc) :
  (∀ k, k ∈ [lit "pointsTable"; lit "TeamStats1"; lit "MatchSummary1"] →
        truthy (get_field s k) = true
        ∨ get_field s k = JUndefined ∨ get_field s k = JNull) →
  public_responseData ty s = spec_responseData ty s.
Proof.
  intros H. unfold public_responseData, spec_responseData.
  rewrite !js_or_nullish; [done|apply H..];
    repeat first [apply list_elem_of_here | apply list_elem_of_further].
Qed.

End Projection.

(** ** The link manager: ownership and validation *)

Section Manager.

Implicit Types (l d : ApiLink) (links : list ApiLink) (db : Db).

Lemma owned_by_true lid uid l :
  owned_by lid uid l = true ↔ linkId l = lid ∧ userId l = uid.
Proof.
  unfold owned_by. by rewrite andb_true_iff, eqb_eq, Nat.eqb_eq.
Qed.

Lemma find_owned links l :
  links_ok links → l ∈ links →
  findOne (owned_by (linkId l) (userId l)) links = Some l.
Proof.
  intros [_ _ Hk] Hl. apply findOne_by_linkId; try done.
  - by apply owned_by_true.
  - intros d Hd. by apply owned_by_true in Hd as [-> _].
Qed.

Lemma find_not_owned links lid uid :
  (∀ l, l ∈ links → linkId l = lid → userId l ≠ uid) →
  findOne (owned_by lid uid) links = None.
Proof.
  intros H. apply findOne_None. intros l Hl.
  destruct (owned_by lid uid l) eqn:E; [|done].
  apply owned_by_true in E as [Hlid Huid]. by destruct (H l Hl Hlid).
Qed.

Lemma includes_type_enum ty :
  includes type_enum ty = true ↔ ∃ t, ty = JStr t ∧ t ∈ type_enum.
Proof.
  unfold includes. split.
  - destruct ty as [| | | |s| |]; try done.
    intros H. exists s. split; [done|].
    apply existsb_exists in H as (x & Hx & He).
    apply eqb_eq in He as ->. by apply list_elem_of_In.
  - intros (t & -> & Ht). apply existsb_exists. exists t.
    split; [by apply list_elem_of_In | apply eqb_refl].
Qed.

Lemma type_enum_validates t :
  t ∈ type_enum → existsb (eqb t) type_enum = true.
Proof.
  intros Ht. apply existsb_exists. exists t.
  split; [by apply list_elem_of_In | apply eqb_refl].
Qed.

Lemma is_empty_false (s : jstring) : is_empty s = false ↔ s ≠ [].
Proof. by destruct s. Qed.

(** C7: a delete request for a token that no link of the caller has,
    because no link has it or because its link belongs to another user,
    is answered 404 [API link not found] (not 401 or 403) and leaves
    the database as it was; the owner of the link still finds it. *)
Theorem C7_delete_not_owned_not_found
    (uid : ObjectId) (lid : jstring) (db : Db) :
  (∀ l, l ∈ apilinks db → linkId l = lid → userId l ≠ uid) →
  apilinks_delete uid lid db = (fail 404 "API link not found", db)
  ∧ status (apilinks_delete uid lid db).1 = 404%nat
  ∧ (apilinks_delete uid lid db).2 = db
  ∧ ∀ l, links_ok (apilinks db) → l ∈ apilinks db → linkId l = lid →
         l ∈ apilinks (apilinks_delete uid lid db).2
         ∧ findOne (owned_by lid (userId l))
             (apilinks (apilinks_delete uid lid db).2) = Some l.
Proof.
  intros H. unfold apilinks_delete.
  rewrite (find_not_owned _ _ _ H). simpl.
  repeat split; try done.
  subst lid. by apply find_owned.
Qed.

Lemma C7_witness :
  apilinks_delete 7 (lit "tokenB") Sample.db
    = (fail 404 "API link not found", Sample.db)
  ∧ apilinks_delete 7 (lit "absent") Sample.db
    = (fail 404 "API link not found", Sample.db)
  ∧ findOne (owned_by (lit "tokenB") 8)
      (apilinks (apilinks_delete 7 (lit "tokenB") Sample.db).2)
    = Some Sample.link_b.
Proof.
  assert (Hforeign : ∀ l, l ∈ apilinks Sample.db →
            linkId l = lit "tokenB" → userId l ≠ 7%nat).
  { intros l Hl Hlid. simpl in Hl.
    repeat (apply elem_of_cons in Hl as [->|Hl]; [done|]).
    by apply elem_of_nil in Hl. }
  assert (Habsent : ∀ l, l ∈ apilinks Sample.db →
            linkId l = lit "absent" → userId l ≠ 7%nat).
  { intros l Hl Hlid. simpl in Hl.
    repeat (apply elem_of_cons in Hl as [->|Hl]; [done|]).
    by apply elem_of_nil in Hl. }
  pose proof (C7_delete_not_owned_not_found 7 (lit "tokenB") Sample.db
                Hforeign) as (H1 & _ & _ & H4).
  pose proof (C7_delete_not_owned_not_found 7 (lit "absent") Sample.db
                Habsent) as (H2 & _).
  split; [exact H1|]. split; [exact H2|].
  apply (H4 Sample.link_b sample_links_ok).
  - apply list_elem_of_further, list_elem_of_here.
  - reflexivity.
Defined.

End Manager.

(** ** The link manager: update *)

Section Update.

Implicit Types (l d : ApiLink) (links : list ApiLink) (db : Db).

Lemma validate_iff l :
  validate l = true
  ↔ linkId l ≠ [] ∧ matchId l ≠ [] ∧ type l ∈ type_enum.
Proof.
  unfold validate. rewrite !andb_true_iff, !negb_true_iff, !is_empty_false.
  split.
  - intros [[H1 H2] H3]. repeat split; try done.
    apply existsb_exists in H3 as (x & Hx & He).
    apply eqb_eq in He as ->. by apply list_elem_of_In.
  - intros (H1 & H2 & H3). repeat split; try done.
    by apply type_enum_validates.
Qed.

Lemma trim_nonempty (m : jstring) : trim m ≠ [] → m ≠ [].
Proof. intros H ->. by apply H. Qed.

Lemma type_enum_nonempty (t : jstring) : t ∈ type_enum → t ≠ [].
Proof.
  intros Ht ->. unfold type_enum in Ht.
  repeat (apply elem_of_cons in Ht as [Ht|Ht]; [done|]).
  by apply elem_of_nil in Ht.
Qed.

(** The update of a link of the caller, with a string [matchId] that is
    not white space only and a recognised [type]. *)
Lemma apilinks_update_accepted uid lid m t baseUrl db l :
  links_ok (apilinks db) → l ∈ apilinks db →
  linkId l = lid → userId l = uid →
  trim m ≠ [] → t ∈ type_enum →
  ∃ l' before after,
    apilinks db = before ++ l :: after
    ∧ apilinks_update uid lid (JStr m) (JStr t) baseUrl db
      = ({| status := 200;
            body := LinkData l' (Some (publicUrl_of baseUrl lid))
                      (Some (lit "API link updated successfully")) |},
         with_apilinks db (before ++ l' :: after))
    ∧ matchId l' = trim m ∧ type l' = t
    ∧ (_id l', userId l', linkId l', isActive l',
       lastAccessed l', accessCount l')
      = (_id l, userId l, linkId l, isActive l,
         lastAccessed l, accessCount l).
Proof.
  intros Hok Hl Hlid Huid Hm Ht.
  pose proof (links_ok_valid _ _ Hok Hl) as Hv.
  apply validate_iff in Hv as (Hv1 & _ & _).
  assert (Htm : truthy (JStr m) = true).
  { simpl. by rewrite (proj2 (is_empty_false m) (trim_nonempty m Hm)). }
  assert (Htt : truthy (JStr t) = true).
  { simpl. by rewrite (proj2 (is_empty_false t) (type_enum_nonempty t Ht)). }
  assert (Hi : includes type_enum (JStr t) = true).
  { apply includes_type_enum. by exists t. }
  unfold apilinks_update. rewrite Htm, Htt, Hi.
  cbn [negb orb call_trim as_string].
  subst lid uid. rewrite (find_owned _ _ Hok Hl).
  set (l' := {| _id := _id l; userId := userId l; linkId := linkId l;
                matchId := trim m; type := t; isActive := isActive l;
                lastAccessed := lastAccessed l;
                accessCount := accessCount l |}).
  rewrite (save_valid l') by (by apply validate_iff).
  destruct (updateOne_spec l' l (apilinks db))
    as (before & after & Hdb & Hup); [by destruct Hok | done | done |].
  exists l', before, after. by rewrite Hup.
Qed.

(** C6: the update is refused with 400 when [matchId] or [type] is
    missing (falsy), with 400 when [type] is not one of [full],
    [alive_status] and [points_table], and with 404 when no link of the
    caller has the token; the stored links change only when all three
    checks pass; and when they pass for a string [matchId] with more
    than white space in it, the link is stored with the trimmed
    [matchId] and the new [type] and is otherwise unchanged. *)
Theorem C6_update_checks_then_writes
    (uid : ObjectId) (lid : jstring) (mid ty : JsVal) (baseUrl : jstring)
    (db : Db) :
  (truthy mid = false ∨ truthy ty = false →
     apilinks_update uid lid mid ty baseUrl db
     = (fail 400 "Match ID and type are required", db))
  ∧ (truthy mid = true → truthy ty = true →
     (∀ t, t ∈ type_enum → ty ≠ JStr t) →
     apilinks_update uid lid mid ty baseUrl db
     = (fail 400 "Invalid type. Use: full, alive_status, or points_table",
        db))
  ∧ (truthy mid = true → (∃ t, ty = JStr t ∧ t ∈ type_enum) →
     (∀ l, l ∈ apilinks db → linkId l = lid → userId l ≠ uid) →
     apilinks_update uid lid mid ty baseUrl db
     = (fail 404 "API link not found", db))
  ∧ ((apilinks_update uid lid mid ty baseUrl db).2 ≠ db →
     truthy mid = true
     ∧ (∃ t, ty = JStr t ∧ t ∈ type_enum)
     ∧ ∃ l, l ∈ apilinks db ∧ linkId l = lid ∧ userId l = uid)
  ∧ (∀ l m t,
       links_ok (apilinks db) → l ∈ apilinks db →
       linkId l = lid → userId l = uid →
       mid = JStr m → trim m ≠ [] → ty = JStr t → t ∈ type_enum →
       ∃ l' before after,
         apilinks db = before ++ l :: after
         ∧ apilinks_update uid lid mid ty baseUrl db
           = ({| status := 200;
                 body := LinkData l' (Some (publicUrl_of baseUrl lid))
                           (Some (lit "API link updated successfully")) |},
              with_apilinks db (before ++ l' :: after))
         ∧ matchId l' = trim m ∧ type l' = t
         ∧ (_id l', userId l', linkId l', isActive l',
            lastAccessed l', accessCount l')
           = (_id l, userId l, linkId l, isActive l,
              lastAccessed l, accessCount l)).
Proof.
  split; [|split; [|split; [|split]]].
  - unfold apilinks_update. by intros [-> | ->]; rewrite ?orb_true_r.
  - intros Hm Ht Hty. unfold apilinks_update. rewrite Hm, Ht. simpl.
    destruct (includes type_enum ty) eqn:Hi; [|done].
    apply includes_type_enum in Hi as (t & -> & Hin).
    by destruct (Hty t Hin).
  - intros Hm Hty Hown. unfold apilinks_update. rewrite Hm.
    assert (Hi := proj2 (includes_type_enum ty) Hty). rewrite Hi.
    destruct Hty as (t & -> & Hin).
    assert (Htt : truthy (JStr t) = true).
    { simpl.
      by rewrite (proj2 (is_empty_false t) (type_enum_nonempty t Hin)). }
    rewrite Htt. cbn [negb orb].
    by rewrite (find_not_owned _ _ _ Hown).
  - unfold apilinks_update.
    destruct (truthy mid) eqn:Hm; simpl; [|done].
    destruct (truthy ty) eqn:Ht; simpl; [|done].
    destruct (includes type_enum ty) eqn:Hi; simpl; [|done].
    destruct (findOne (owned_by lid uid) (apilinks db)) as [l|] eqn:Hf;
      [|done].
    intros _. split; [done|].
    split; [by apply includes_type_enum|].
    apply findOne_Some in Hf as [Hl Ho].
    apply owned_by_true in Ho. by exists l.
  - intros l m t Hok Hl Hlid Huid -> Hm -> Ht.
    by apply apilinks_update_accepted.
Qed.

Lemma C6_witness :
  apilinks_update 7 (lit "tokenA") JUndefined (JStr (lit "full"))
    (lit "http://h") Sample.db
    = (fail 400 "Match ID and type are required", Sample.db)
  ∧ apilinks_update 7 (lit "tokenA") (JStr (lit "m-2")) (JStr (lit "all"))
      (lit "http://h") Sample.db
    = (fail 400 "Invalid type. Use: full, alive_status, or points_table",
       Sample.db)
  ∧ apilinks_update 7 (lit "tokenB") (JStr (lit "m-2")) (JStr (lit "full"))
      (lit "http://h") Sample.db
    = (fail 404 "API link not found", Sample.db)
  ∧ ∃ l' before after,
      apilinks Sample.db = before ++ Sample.link_a :: after
      ∧ apilinks_update 7 (lit "tokenA") (JStr (lit " m-2 "))
          (JStr (lit "full")) (lit "http://h") Sample.db
        = ({| status := 200;
              body := LinkData l'
                        (Some (publicUrl_of (lit "http://h") (lit "tokenA")))
                        (Some (lit "API link updated successfully")) |},
           with_apilinks Sample.db (before ++ l' :: after))
      ∧ matchId l' = trim (lit " m-2 ") ∧ type l' = lit "full"
      ∧ (_id l', userId l', linkId l', isActive l',
         lastAccessed l', accessCount l')
        = (1%nat, 7%nat, lit "tokenA", true, None, 0%Z).
Proof.
  split; [|split; [|split]].
  - apply (C6_update_checks_then_writes 7 (lit "tokenA") JUndefined
             (JStr (lit "full")) (lit "http://h") Sample.db).
    by left.
  - apply (C6_update_checks_then_writes 7 (lit "tokenA")
             (JStr (lit "m-2")) (JStr (lit "all")) (lit "http://h")
             Sample.db); try done.
    intros t Ht. unfold type_enum in Ht.
    repeat (apply elem_of_cons in Ht as [->|Ht]; [done|]).
    by apply elem_of_nil in Ht.
  - apply (C6_update_checks_then_writes 7 (lit "tokenB")
             (JStr (lit "m-2")) (JStr (lit "full")) (lit "http://h")
             Sample.db); try done.
    + exists (lit "full"). split; [done | apply list_elem_of_here].
    + intros l Hl Hlid. simpl in Hl.
      repeat (apply elem_of_cons in Hl as [->|Hl]; [done|]).
      by apply elem_of_nil in Hl.
  - pose proof (C6_update_checks_then_writes 7 (lit "tokenA")
                  (JStr (lit " m-2 ")) (JStr (lit "full")) (lit "http://h")
                  Sample.db) as (_ & _ & _ & _ & Hwrite).
    apply (Hwrite Sample.link_a (lit " m-2 ") (lit "full")); try done.
    + exact sample_links_ok.
    + apply list_elem_of_here.
    + apply list_elem_of_here.
Defined.

End Update.

(** ** Who writes the telemetry *)

Section Frame.

Implicit Types (l d x : ApiLink) (links : list ApiLink) (db : Db).

Lemma id_unique links l d :
  NoDup (map _id links) → l ∈ links → d ∈ links → _id d = _id l → d = l.
Proof.
  intros Hnd Hl Hd Heq.
  induction links as [|y links IH]; [by apply elem_of_nil in Hl|].
  simpl in Hnd. apply NoDup_cons in Hnd as [Hy Hnd].
  apply elem_of_cons in Hl as [->|Hl]; apply elem_of_cons in Hd as [->|Hd].
  - done.
  - exfalso. apply Hy. rewrite <- Heq. by apply list_elem_of_fmap_2.
  - exfalso. apply Hy. rewrite Heq. by apply list_elem_of_fmap_2.
  - by apply IH.
Qed.

Lemma kept_refl links : NoDup (map _id links) → telemetry_kept links links.
Proof.
  intros Hnd l l' Hl Hl' Hid.
  by rewrite (id_unique links l l' Hnd Hl Hl').
Qed.

Lemma kept_updateOne links l0 x :
  NoDup (map _id links) → l0 ∈ links → _id x = _id l0 →
  same_telemetry l0 x →
  telemetry_kept links (updateOne x links).
Proof.
  intros Hnd Hl0 Hid Hsame l l' Hl Hl' Hll'.
  destruct (updateOne_spec x l0 links Hnd Hl0 Hid) as (b & a & Hb & Hu).
  rewrite Hu in Hl'.
  assert (Hcase : l' = x ∨ l' ∈ links).
  { apply elem_of_app in Hl' as [H|H].
    - right. rewrite Hb. apply elem_of_app. by left.
    - apply elem_of_cons in H as [->|H]; [by left|].
      right. rewrite Hb. apply elem_of_app. right. by right. }
  destruct Hcase as [->|Hin].
  - rewrite (id_unique links l0 l Hnd Hl0 Hl); [done | congruence].
  - by rewrite (id_unique links l l' Hnd Hl Hin).
Qed.

Lemma kept_delete id links :
  NoDup (map _id links) → telemetry_kept links (findByIdAndDelete id links).
Proof.
  intros Hnd l l' Hl Hl' Hid.
  assert (Hin : l' ∈ links)
    by (eapply elem_of_sublist; [done | apply findByIdAndDelete_sublist]).
  by rewrite (id_unique links l l' Hnd Hl Hin).
Qed.

Lemma kept_create uid lid mid ty links doc links' :
  NoDup (map _id links) →
  create uid lid mid ty links = Some (doc, links') →
  telemetry_kept links links'.
Proof.
  intros Hnd Hc l l' Hl Hl' Hid.
  apply create_Some in Hc as (Hdoc & -> & _ & _).
  apply elem_of_app in Hl' as [Hin|Hnew].
  - by rewrite (id_unique links l l' Hnd Hl Hin).
  - apply list_elem_of_singleton in Hnew. subst l'.
    exfalso. apply (new_ObjectId_fresh links).
    replace (new_ObjectId links) with (_id doc) by (by rewrite Hdoc).
    rewrite <- Hid. by apply list_elem_of_fmap_2.
Qed.

Lemma set_isActive_kept l0 b db resp db' :
  links_ok (apilinks db) → l0 ∈ apilinks db →
  set_isActive l0 b db = (resp, db') →
  telemetry_kept (apilinks db) (apilinks db').
Proof.
  intros [_ Hi _] Hl0. unfold set_isActive.
  match goal with |- context [save ?d _] => set (x := d) end.
  destruct (save x (apilinks db)) as [links'|] eqn:Hs.
  - apply save_Some in Hs as [_ ->]. intros [= _ <-]. simpl.
    by apply (kept_updateOne _ l0).
  - intros [= _ <-]. by apply kept_refl.
Qed.

Lemma apilinks_update_kept uid lid mid ty baseUrl db resp db' :
  links_ok (apilinks db) →
  apilinks_update uid lid mid ty baseUrl db = (resp, db') →
  telemetry_kept (apilinks db) (apilinks db').
Proof.
  intros Hok. pose proof (ok_ids _ Hok) as Hi. unfold apilinks_update.
  destruct (negb (truthy mid) || negb (truthy ty));
    [intros [= _ <-]; by apply kept_refl|].
  destruct (negb (includes type_enum ty));
    [intros [= _ <-]; by apply kept_refl|].
  destruct (findOne (owned_by lid uid) (apilinks db)) as [l0|] eqn:Hf;
    [|intros [= _ <-]; by apply kept_refl].
  apply findOne_Some in Hf as [Hl0 _].
  destruct (call_trim mid) as [m|]; [|intros [= _ <-]; by apply kept_refl].
  destruct (as_string ty) as [t|]; [|intros [= _ <-]; by apply kept_refl].
  match goal with |- context [save ?d _] => set (x := d) end.
  destruct (save x (apilinks db)) as [links'|] eqn:Hs.
  - apply save_Some in Hs as [_ ->]. intros [= _ <-]. simpl.
    by apply (kept_updateOne _ l0).
  - intros [= _ <-]. by apply kept_refl.
Qed.

Lemma apilinks_post_kept fuel draws uid mid ty baseUrl db resp db' :
  links_ok (apilinks db) →
  apilinks_post fuel draws uid mid ty baseUrl db = Some (resp, db') →
  telemetry_kept (apilinks db) (apilinks db').
Proof.
  intros Hok. pose proof (ok_ids _ Hok) as Hi. unfold apilinks_post.
  destruct (negb (truthy mid) || negb (truthy ty));
    [intros [= _ <-]; by apply kept_refl|].
  destruct (negb (includes type_enum ty));
    [intros [= _ <-]; by apply kept_refl|].
  destruct (gen_while fuel draws (apilinks db) gen_init) as [st|];
    simpl; [|done].
  destruct (negb (isUnique st)); [intros [= _ <-]; by apply kept_refl|].
  destruct (gen_linkId st) as [tok|];
    [|intros [= _ <-]; by apply kept_refl].
  destruct (call_trim mid) as [m|]; [|intros [= _ <-]; by apply kept_refl].
  destruct (as_string ty) as [t|]; [|intros [= _ <-]; by apply kept_refl].
  destruct (create uid tok m t (apilinks db)) as [[doc links']|] eqn:Hc.
  - intros [= _ <-]. simpl. by eapply kept_create.
  - intros [= _ <-]. by apply kept_refl.
Qed.

(** No request of the link manager changes the telemetry of a stored
    link. *)
Lemma manage_kept fuel r db resp db' :
  links_ok (apilinks db) →
  manage fuel r db = Some (resp, db') →
  telemetry_kept (apilinks db) (apilinks db').
Proof.
  intros Hok. pose proof (ok_ids _ Hok) as Hi.
  destruct r as [draws uid mid ty baseUrl | uid lid | uid lid mid ty baseUrl
                | uid lid | uid lid active]; simpl.
  - by apply apilinks_post_kept.
  - intros [= H]. revert H. unfold apilinks_delete.
    destruct (findOne (owned_by lid uid) (apilinks db)) as [l0|].
    + intros [= _ <-]. simpl. by apply kept_delete.
    + intros [= _ <-]. by apply kept_refl.
  - intros [= H]. by eapply apilinks_update_kept.
  - intros [= H]. revert H. unfold apilinks_toggle.
    destruct (findOne (owned_by lid uid) (apilinks db)) as [l0|] eqn:Hf.
    + apply findOne_Some in Hf as [Hl0 _]. by apply set_isActive_kept.
    + intros [= _ <-]. by apply kept_refl.
  - intros [= H]. revert H. unfold apilinks_status.
    destruct (as_boolean active) as [b|];
      [|intros [= _ <-]; by apply kept_refl].
    destruct (findOne (owned_by lid uid) (apilinks db)) as [l0|] eqn:Hf.
    + apply findOne_Some in Hf as [Hl0 _]. by apply set_isActive_kept.
    + intros [= _ <-]. by apply kept_refl.
Qed.

(** The resolver leaves a stored link as it is or, when it accepts the
    link's token, counts the access. *)
Lemma public_get_writes now lid db resp db' l l' :
  links_ok (apilinks db) →
  public_get now lid db = (resp, db') →
  l ∈ apilinks db → l' ∈ apilinks db' → _id l = _id l' →
  l' = l ∨ (lid = linkId l ∧ isActive l = true ∧ l' = accessed now l).
Proof.
  intros Hok Hp Hl Hl' Hid. pose proof (ok_ids _ Hok) as Hi.
  destruct (findOne (active_with lid) (apilinks db)) as [l0|] eqn:Hf.
  - pose proof (findOne_Some _ _ _ Hf) as [Hl0 Ha].
    apply active_with_true in Ha as [Hlid Hact].
    rewrite (public_get_accepted now lid db l0 Hf) in Hp
      by (by eapply links_ok_valid).
    injection Hp as _ <-. simpl in Hl'.
    destruct (updateOne_spec (accessed now l0) l0 (apilinks db))
      as (b & a & Hb & Hu); [done..|].
    rewrite Hu in Hl'.
    assert (Hcase : l' = accessed now l0 ∨ l' ∈ apilinks db).
    { apply elem_of_app in Hl' as [H|H].
      - right. rewrite Hb. apply elem_of_app. by left.
      - apply elem_of_cons in H as [->|H]; [by left|].
        right. rewrite Hb. apply elem_of_app. right. by right. }
    destruct Hcase as [->|Hin].
    + right.
      assert (l0 = l) as -> by (by apply (id_unique (apilinks db))).
      done.
    + left. by apply (id_unique (apilinks db)).
  - unfold public_get in Hp. rewrite Hf in Hp. injection Hp as _ <-.
    left. by apply (id_unique (apilinks db)).
Qed.

End Frame.

Section TelemetryOwner.

Implicit Types (l d : ApiLink) (db : Db).

(** C9: over one request of any kind, a stored link's [accessCount]
    does not decrease; over a request of the link manager (create,
    delete, update, toggle, status) its [accessCount] and
    [lastAccessed] stay as they are; and when either of them differs
    afterwards, the request was a public resolution of this link's
    token, the link was enabled, and the link is now the same link with
    one more access at the time of the resolution. *)
Theorem C9_telemetry_written_by_resolver_only
    (fuel : nat) (q : Request) (db db' : Db) (resp : Response)
    (l l' : ApiLink) :
  links_ok (apilinks db) →
  handle fuel q db = Some (resp, db') →
  l ∈ apilinks db → l' ∈ apilinks db' → _id l = _id l' →
  (accessCount l ≤ accessCount l')%Z
  ∧ (∀ r, q = Manager r →
          accessCount l' = accessCount l
          ∧ lastAccessed l' = lastAccessed l)
  ∧ (accessCount l' ≠ accessCount l ∨ lastAccessed l' ≠ lastAccessed l →
     ∃ now, q = GetPublic now (linkId l)
            ∧ isActive l = true
            ∧ l' = accessed now l).
Proof.
  intros Hok Hh Hl Hl' Hid.
  assert (Hunchanged : same_telemetry l l' →
    (accessCount l ≤ accessCount l')%Z
    ∧ (∀ r, q = Manager r →
            accessCount l' = accessCount l
            ∧ lastAccessed l' = lastAccessed l)
    ∧ (accessCount l' ≠ accessCount l ∨ lastAccessed l' ≠ lastAccessed l →
       ∃ now, q = GetPublic now (linkId l)
              ∧ isActive l = true ∧ l' = accessed now l)).
  { intros [Hc Ha]. split; [lia|]. split; [done|]. by intros [H|H]. }
  destruct q as [r | now lid | mid ty | mid]; simpl in Hh.
  - apply Hunchanged. by apply (manage_kept fuel r db resp db').
  - injection Hh as Hp.
    destruct (public_get_writes now lid db resp db' l l' Hok Hp Hl Hl' Hid)
      as [-> | (-> & Hact & ->)]; [by apply Hunchanged|].
    split; [simpl; lia|]. split; [done|]. intros _. by exists now.
  - injection Hh as _ <-. apply Hunchanged.
    by apply (kept_refl (apilinks db)); [destruct Hok|..].
  - injection Hh as _ <-. apply Hunchanged.
    by apply (kept_refl (apilinks db)); [destruct Hok|..].
Qed.

Lemma C9_witness :
  (accessCount
     (mkApiLink 1 7 (lit "tokenA") (lit "m-1") (lit "points_table")
        false None 0)
   = accessCount Sample.link_a
   ∧ lastAccessed
       (mkApiLink 1 7 (lit "tokenA") (lit "m-1") (lit "points_table")
          false None 0)
     = lastAccessed Sample.link_a)
  ∧ (accessCount Sample.link_a
     ≤ accessCount (accessed 50 Sample.link_a))%Z.
Proof.
  split.
  - pose proof (C9_telemetry_written_by_resolver_only 10
                  (Manager (PatchToggle 7 (lit "tokenA"))) Sample.db
                  (apilinks_toggle 7 (lit "tokenA") Sample.db).2
                  (apilinks_toggle 7 (lit "tokenA") Sample.db).1
                  Sample.link_a
                  (mkApiLink 1 7 (lit "tokenA") (lit "m-1")
                     (lit "points_table") false None 0)
                  sample_links_ok eq_refl) as H.
    destruct H as (_ & Hm & _).
    + apply list_elem_of_here.
    + apply list_elem_of_here.
    + reflexivity.
    + exact (Hm _ eq_refl).
  - pose proof (C9_telemetry_written_by_resolver_only 10
                  (GetPublic 50 (lit "tokenA")) Sample.db
                  (public_get 50 (lit "tokenA") Sample.db).2
                  (public_get 50 (lit "tokenA") Sample.db).1
                  Sample.link_a (accessed 50 Sample.link_a)
                  sample_links_ok eq_refl) as H.
    destruct H as (Hle & _).
    + apply list_elem_of_here.
    + apply list_elem_of_here.
    + reflexivity.
    + exact Hle.
Defined.

End TelemetryOwner.

(** ** Token generation *)

Section Generation.

Implicit Types (draws : Draws) (links : list ApiLink) (db : Db).

Lemma chars_length : length chars = 62%nat.
Proof. reflexivity. Qed.

Lemma chars_alnum : forallb is_alnum chars = true.
Proof. reflexivity. Qed.

Lemma chars_NoDup : NoDup chars.
Proof. apply (bool_decide_unpack _). by vm_compute. Qed.

Lemma charAt_chars (d : nat) :
  (d < 62)%nat → ∃ c, charAt chars d = [c] ∧ c ∈ chars.
Proof.
  intros Hd. unfold charAt.
  destruct (chars !! d) as [c|] eqn:E.
  - exists c. split; [done|]. by eapply list_elem_of_lookup_2.
  - apply lookup_ge_None in E. rewrite chars_length in E. lia.
Qed.

Lemma generateLinkId_from_spec n draws pos result :
  (∀ k, draws k < 62)%nat →
  ∃ suffix,
    generateLinkId_from n draws pos result = result ++ suffix
    ∧ length suffix = n
    ∧ Forall (fun c => c ∈ chars) suffix.
Proof.
  intros Hd. revert pos result.
  induction n as [|n IH]; intros pos result; simpl.
  - exists []. by rewrite app_nil_r.
  - destruct (charAt_chars (draws pos) (Hd pos)) as (c & -> & Hc).
    destruct (IH (S pos) (result ++ [c])) as (suffix & -> & Hlen & Hall).
    exists (c :: suffix). rewrite <- app_assoc. simpl.
    repeat split; [by rewrite Hlen | by constructor].
Qed.

(** With draws in the range of the alphabet, every token has sixteen
    symbols of the alphabet. *)
Lemma token_spec draws k :
  (∀ i, draws i < 62)%nat →
  length (token draws k) = 16%nat
  ∧ Forall (fun c => c ∈ chars) (token draws k).
Proof.
  intros Hd. unfold token, generateLinkId.
  destruct (generateLinkId_from_spec 16 draws (16 * k) [] Hd)
    as (suffix & -> & Hlen & Hall).
  done.
Qed.

Lemma findOne_linkId_None links lid :
  findOne (fun l => eqb (linkId l) lid) links = None
  ↔ lid ∉ map linkId links.
Proof.
  rewrite findOne_None. split.
  - intros H Hin. apply list_elem_of_fmap in Hin as (l & -> & Hl).
    specialize (H l Hl). by rewrite eqb_refl in H.
  - intros H l Hl. apply eqb_neq. intros <-. apply H.
    by apply list_elem_of_fmap_2.
Qed.

Lemma gen_while_unique fuel draws links st :
  isUnique st = true → gen_while fuel draws links st = Some st.
Proof. intros H. destruct fuel; simpl; by rewrite H. Qed.

(** The loop from attempt number [a] on, with enough fuel for the
    attempts that are left: it stops at the first token that no link
    has, or after the tenth attempt. *)
Lemma gen_while_from fuel draws links (a : nat) (x : option jstring) :
  (a ≤ 10)%nat → (10 - a ≤ fuel)%nat →
  (∃ k, (a ≤ k < 10)%nat
      ∧ (∀ j, (a ≤ j < k)%nat → token draws j ∈ map linkId links)
      ∧ (token draws k ∉ map linkId links)
      ∧ gen_while fuel draws links (mkGenState x false a (16 * a))
        = Some (mkGenState (Some (token draws k)) true (S k) (16 * S k)))
  ∨ ((∀ j, (a ≤ j < 10)%nat → token draws j ∈ map linkId links)
     ∧ ∃ st, gen_while fuel draws links (mkGenState x false a (16 * a))
             = Some st
             ∧ isUnique st = false ∧ attempts st = 10%nat).
Proof.
  revert a x. induction fuel as [|fuel IH]; intros a x Ha Hfuel.
  - assert (a = 10)%nat as -> by lia. right. split; [intros j Hj; lia|].
    eexists. by split.
  - destruct (decide (a = 10%nat)) as [->|Hne].
    { right. split; [intros j Hj; lia|]. eexists. by split. }
    cbn [gen_while isUnique attempts negb andb].
    replace (a <? 10)%nat with true by (symmetry; apply Nat.ltb_lt; lia).
    unfold gen_body. cbn [drawn isUnique attempts].
    fold (token draws a).
    destruct (findOne (fun l => eqb (linkId l) (token draws a)) links)
      as [d|] eqn:Hf.
    + assert (Htaken : token draws a ∈ map linkId links).
      { apply findOne_Some in Hf as [Hd He]. apply eqb_eq in He as <-.
        by apply list_elem_of_fmap_2. }
      replace (16 * a + 16)%nat with (16 * S a)%nat by lia.
      destruct (IH (S a) (Some (token draws a))) as
        [(k & Hk & Hbefore & Hfree & Hrun) | (Hall & st & Hrun & Hst)];
        [lia | lia | |].
      * left. exists k. split; [lia|]. split; [|done].
        intros j Hj. destruct (decide (j = a)) as [->|]; [done|].
        apply Hbefore. lia.
      * right. split; [|by exists st].
        intros j Hj. destruct (decide (j = a)) as [->|]; [done|].
        apply Hall. lia.
    + apply findOne_linkId_None in Hf.
      left. exists a. split; [lia|]. split; [intros j Hj; lia|].
      split; [done|].
      replace (16 * a + 16)%nat with (16 * S a)%nat by lia.
      by apply gen_while_unique.
Qed.

Lemma create_fresh uid lid mid ty links :
  lid ≠ [] → mid ≠ [] → ty ∈ type_enum → lid ∉ map linkId links →
  create uid lid mid ty links
  = Some ({| _id := new_ObjectId links; userId := uid; linkId := lid;
             matchId := mid; type := ty; isActive := true;
             lastAccessed := None; accessCount := 0%Z |},
          links ++ [ {| _id := new_ObjectId links; userId := uid;
                        linkId := lid; matchId := mid; type := ty;
                        isActive := true; lastAccessed := None;
                        accessCount := 0%Z |} ]).
Proof.
  intros Hl Hm Ht Hfree. unfold create.
  match goal with |- context [validate ?d] => set (doc := d) end.
  replace (validate doc) with true
    by (symmetry; by apply validate_iff).
  replace (existsb (fun d => eqb (linkId d) lid) links) with false; [done|].
  symmetry. apply not_true_iff_false. intros He.
  apply existsb_exists in He as (d & Hd & Heq).
  apply eqb_eq in Heq as <-. apply Hfree.
  apply list_elem_of_fmap_2. by apply list_elem_of_In.
Qed.

End Generation.

Section Create.

Implicit Types (draws : Draws) (links : list ApiLink) (db : Db).

(** C5: the alphabet has 62 distinct alphanumeric symbols and every
    token has sixteen of them; for a request that passes validation the
    handler returns, after at most ten attempts (the loop ends within
    ten iterations whatever the draws and the stored links): either some
    attempt [k < 10] is the first whose token no stored link has, and the
    link is created with that token and answered 201; or all ten tokens
    are taken, and the answer is the 500 [Failed to generate unique link
    ID] with the database unchanged. *)
Theorem C5_token_generation_bounded
    (fuel : nat) (draws : Draws) (uid : ObjectId) (m t baseUrl : jstring)
    (db : Db) :
  (10 ≤ fuel)%nat → (∀ i, draws i < 62)%nat →
  trim m ≠ [] → t ∈ type_enum →
  length chars = 62%nat ∧ NoDup chars ∧ forallb is_alnum chars = true
  ∧ (∀ k, length (token draws k) = 16%nat
          ∧ Forall (fun c => c ∈ chars) (token draws k))
  ∧ (∀ draws0 links0,
       ∃ st, gen_while fuel draws0 links0 gen_init = Some st
             ∧ (attempts st ≤ 10)%nat)
  ∧ ((∃ k l,
        (k < 10)%nat
        ∧ (∀ j, (j < k)%nat → token draws j ∈ map linkId (apilinks db))
        ∧ (token draws k ∉ map linkId (apilinks db))
        ∧ l = {| _id := new_ObjectId (apilinks db); userId := uid;
                 linkId := token draws k; matchId := trim m; type := t;
                 isActive := true; lastAccessed := None;
                 accessCount := 0%Z |}
        ∧ apilinks_post fuel draws uid (JStr m) (JStr t) baseUrl db
          = Some ({| status := 201;
                     body := LinkData l
                               (Some (publicUrl_of baseUrl (token draws k)))
                               None |},
                  with_apilinks db (apilinks db ++ [l])))
     ∨ ((∀ j, (j < 10)%nat → token draws j ∈ map linkId (apilinks db))
        ∧ apilinks_post fuel draws uid (JStr m) (JStr t) baseUrl db
          = Some (fail 500 "Failed to generate unique link ID", db))).
Proof.
  intros Hfuel Hd Hm Ht.
  split; [apply chars_length|]. split; [apply chars_NoDup|].
  split; [apply chars_alnum|]. split; [intros k; by apply token_spec|].
  split.
  { intros draws0 links0.
    change gen_init with (mkGenState None false 0 (16 * 0)).
    destruct (gen_while_from fuel draws0 links0 0 None)
      as [(k & Hk & _ & _ & ->) | (_ & st & -> & _ & Hst)]; [lia | lia | |].
    - eexists. split; [done|]. simpl. lia.
    - exists st. split; [done | lia]. }
  assert (Htm : truthy (JStr m) = true).
  { simpl. by rewrite (proj2 (is_empty_false m) (trim_nonempty m Hm)). }
  assert (Htt : truthy (JStr t) = true).
  { simpl. by rewrite (proj2 (is_empty_false t) (type_enum_nonempty t Ht)). }
  assert (Hi : includes type_enum (JStr t) = true).
  { apply includes_type_enum. by exists t. }
  unfold apilinks_post. rewrite Htm, Htt, Hi.
  cbn [negb orb call_trim as_string].
  change gen_init with (mkGenState None false 0 (16 * 0)).
  destruct (gen_while_from fuel draws (apilinks db) 0 None)
    as [(k & Hk & Hbefore & Hfree & Hrun) | (Hall & st & Hrun & Hu & _)];
    [lia | lia | |].
  - left. eexists k, _. split; [lia|].
    split; [intros j Hj; apply Hbefore; lia|].
    split; [done|]. split; [reflexivity|].
    rewrite Hrun. simpl.
    rewrite create_fresh; try done.
    intros Hnil. destruct (token_spec draws k Hd) as [Hlen _].
    by rewrite Hnil in Hlen.
  - right. split; [intros j Hj; apply Hall; lia|].
    rewrite Hrun. simpl. by rewrite Hu.
Qed.

Lemma C5_witness :
  (∃ k l,
     (k < 10)%nat
     ∧ (token Sample.draws k ∉ map linkId (apilinks Sample.db))
     ∧ linkId l = lit "AAAAAAAAAAAAAAAA" ∧ matchId l = lit "m-9"
     ∧ apilinks_post 10 Sample.draws 7 (JStr (lit " m-9 "))
         (JStr (lit "full")) (lit "http://h") Sample.db
       = Some ({| status := 201;
                  body := LinkData l
                    (Some (publicUrl_of (lit "http://h")
                             (token Sample.draws k))) None |},
               with_apilinks Sample.db (apilinks Sample.db ++ [l])))
  ∧ apilinks_post 10 Sample.draws 7 (JStr (lit " m-9 ")) (JStr (lit "full"))
      (lit "http://h") Sample.db_taken
    = Some (fail 500 "Failed to generate unique link ID", Sample.db_taken).
Proof.
  assert (Hd : ∀ i : nat, (Sample.draws i < 62)%nat)
    by (intros i; unfold Sample.draws; lia).
  assert (Hm : trim (lit " m-9 ") ≠ []) by done.
  assert (Ht : lit "full" ∈ type_enum) by apply list_elem_of_here.
  assert (Htok : ∀ k, token Sample.draws k = lit "AAAAAAAAAAAAAAAA")
    by (intros k; reflexivity).
  split.
  - destruct (C5_token_generation_bounded 10 Sample.draws 7 (lit " m-9 ")
                (lit "full") (lit "http://h") Sample.db
                (le_n 10) Hd Hm Ht)
      as (_ & _ & _ & _ & _ & [(k & l & Hk & _ & Hfree & Hl & Hpost)
                              | [Hall _]]).
    + exists k, l. rewrite Hl at 1 2. by rewrite Htok.
    + exfalso. specialize (Hall 0%nat ltac:(lia)). rewrite Htok in Hall.
      simpl in Hall.
      repeat (apply elem_of_cons in Hall as [Hall|Hall]; [done|]).
      by apply elem_of_nil in Hall.
  - destruct (C5_token_generation_bounded 10 Sample.draws 7 (lit " m-9 ")
                (lit "full") (lit "http://h") Sample.db_taken
                (le_n 10) Hd Hm Ht)
      as (_ & _ & _ & _ & _ & [(k & l & _ & _ & Hfree & _) | [_ Hpost]]).
    + exfalso. apply Hfree. rewrite Htok. simpl.
      apply list_elem_of_further, list_elem_of_here.
    + exact Hpost.
Defined.

End Create.

Section CreateTrimmed.

Implicit Types (draws : Draws) (links : list ApiLink) (db : Db).

(** Creating with a [matchId] or with its trimmed form is the same
    request, as long as the [matchId] is not white space only. *)
Lemma apilinks_post_trimmed fuel draws uid (m : jstring) ty baseUrl db :
  trim m ≠ [] →
  apilinks_post fuel draws uid (JStr m) ty baseUrl db
  = apilinks_post fuel draws uid (JStr (trim m)) ty baseUrl db.
Proof.
  intros Hm. unfold apilinks_post.
  assert (truthy (JStr m) = true) as ->.
  { simpl. by rewrite (proj2 (is_empty_false m) (trim_nonempty m Hm)). }
  assert (truthy (JStr (trim m)) = true) as ->.
  { simpl. by rewrite (proj2 (is_empty_false (trim m)) Hm). }
  cbn [call_trim]. by rewrite trim_idem.
Qed.

(** A created link: what the 201 answer of [POST /api/apilinks] says
    about the request and the database. *)
Lemma apilinks_post_created fuel draws uid mid ty baseUrl db resp db' :
  apilinks_post fuel draws uid mid ty baseUrl db = Some (resp, db') →
  status resp = 201%nat →
  ∃ lid m t l,
    call_trim mid = Some m ∧ as_string ty = Some t
    ∧ create uid lid m t (apilinks db) = Some (l, apilinks db')
    ∧ collections db' = collections db
    ∧ body resp = LinkData l (Some (publicUrl_of baseUrl lid)) None.
Proof.
  unfold apilinks_post.
  destruct (negb (truthy mid) || negb (truthy ty));
    [by intros [= <- _]|].
  destruct (negb (includes type_enum ty)); [by intros [= <- _]|].
  destruct (gen_while fuel draws (apilinks db) gen_init) as [st|];
    simpl; [|done].
  destruct (negb (isUnique st)); [by intros [= <- _]|].
  destruct (gen_linkId st) as [lid|]; [|by intros [= <- _]].
  destruct (call_trim mid) as [m|]; [|by intros [= <- _]].
  destruct (as_string ty) as [t|]; [|by intros [= <- _]].
  destruct (create uid lid m t (apilinks db)) as [[l links']|] eqn:Hc;
    [|by intros [= <- _]].
  intros [= <- <-] _. by exists lid, m, t, l.
Qed.

(** C8: creating a link with the [matchId] [" m-1 "] is the same as
    creating it with ["m-1"]: the two requests have the same answer and
    leave the same database; the link that is created stores ["m-1"],
    and its resolution reads the container [match_m_1], the name derived
    from either spelling. *)
Theorem C8_create_with_spaces_same_as_trimmed
    (fuel : nat) (draws : Draws) (uid : ObjectId) (ty : JsVal)
    (baseUrl : jstring) (db : Db) (resp : Response) (db' : Db) :
  links_ok (apilinks db) →
  apilinks_post fuel draws uid (JStr (lit " m-1 ")) ty baseUrl db
    = Some (resp, db') →
  status resp = 201%nat →
  (∀ fuel0 draws0 uid0 ty0 baseUrl0 db0,
     apilinks_post fuel0 draws0 uid0 (JStr (lit " m-1 ")) ty0 baseUrl0 db0
     = apilinks_post fuel0 draws0 uid0 (JStr (lit "m-1")) ty0 baseUrl0 db0)
  ∧ apilinks_post fuel draws uid (JStr (lit "m-1")) ty baseUrl db
    = Some (resp, db')
  ∧ public_collectionName (lit " m-1 ") = lit "match_m_1"
  ∧ public_collectionName (lit "m-1") = lit "match_m_1"
  ∧ ∃ l, apilinks db' = apilinks db ++ [l]
         ∧ body resp = LinkData l (Some (publicUrl_of baseUrl (linkId l)))
                         None
         ∧ matchId l = lit "m-1"
         ∧ ∀ now, (public_get now (linkId l) db').1
                  = resolved db' (lit "match_m_1") (type l).
Proof.
  intros Hok Hpost Hstatus.
  assert (Hsame : ∀ fuel0 draws0 uid0 ty0 baseUrl0 db0,
     apilinks_post fuel0 draws0 uid0 (JStr (lit " m-1 ")) ty0 baseUrl0 db0
     = apilinks_post fuel0 draws0 uid0 (JStr (lit "m-1")) ty0 baseUrl0 db0).
  { intros. by apply (apilinks_post_trimmed _ _ _ (lit " m-1 ")). }
  split; [exact Hsame|]. split; [by rewrite <- Hsame|].
  split; [reflexivity|]. split; [reflexivity|].
  destruct (apilinks_post_created _ _ _ _ _ _ _ _ _ Hpost Hstatus)
    as (lid & m & t & l & Hm & Ht & Hc & Hcoll & Hbody).
  injection Hm as <-.
  pose proof (create_ok _ _ _ _ _ _ _ Hok Hc) as Hok'.
  apply create_Some in Hc as (Hl & Hlinks & Hv & _).
  exists l. split; [done|].
  split; [by rewrite Hbody, Hl|]. split; [by rewrite Hl|].
  intros now.
  rewrite (public_get_accepted now (linkId l) db' l); try done.
  - simpl. by rewrite Hl.
  - apply find_active; [done | | by rewrite Hl].
    rewrite Hlinks. apply elem_of_app. right. apply list_elem_of_here.
Qed.

Lemma C8_witness :
  apilinks_post 10 Sample.draws 7 (JStr (lit "m-1")) (JStr (lit "full"))
    (lit "http://h") Sample.db
  = apilinks_post 10 Sample.draws 7 (JStr (lit " m-1 ")) (JStr (lit "full"))
      (lit "http://h") Sample.db
  ∧ ∃ l, matchId l = lit "m-1"
         ∧ (public_get 77 (linkId l)
              (with_apilinks Sample.db (apilinks Sample.db ++ [l]))).1.(status)
           = 200%nat.
Proof.
  pose (created := mkApiLink 4 7 (lit "AAAAAAAAAAAAAAAA") (lit "m-1")
                     (lit "full") true None 0).
  destruct (C8_create_with_spaces_same_as_trimmed 10 Sample.draws 7
              (JStr (lit "full")) (lit "http://h") Sample.db
              {| status := 201;
                 body := LinkData created
                   (Some (lit "http://h/api/public/AAAAAAAAAAAAAAAA"))
                   None |}
              (with_apilinks Sample.db (apilinks Sample.db ++ [created]))
              sample_links_ok eq_refl eq_refl)
    as (_ & Hsame & _ & _ & l & Hlinks & _ & Hmid & Hres).
  split; [by rewrite Hsame|].
  exists l. split; [done|].
  simpl in Hlinks. injection Hlinks as <-.
  reflexivity.
Defined.

End CreateTrimmed.

(** ** Every reachable store satisfies the invariant *)

Section Reachable.

Implicit Types (l d x : ApiLink) (links : list ApiLink) (db : Db).

Lemma set_isActive_ok l0 b db resp db' :
  links_ok (apilinks db) → l0 ∈ apilinks db →
  set_isActive l0 b db = (resp, db') → links_ok (apilinks db').
Proof.
  intros Hok Hl0. unfold set_isActive.
  match goal with |- context [save ?d _] => set (x := d) end.
  destruct (save x (apilinks db)) as [links'|] eqn:Hs.
  - intros [= _ <-]. simpl. by apply (save_ok x l0 (apilinks db)).
  - by intros [= _ <-].
Qed.

Lemma manage_ok fuel r db resp db' :
  links_ok (apilinks db) →
  manage fuel r db = Some (resp, db') → links_ok (apilinks db').
Proof.
  intros Hok.
  destruct r as [draws uid mid ty baseUrl | uid lid | uid lid mid ty baseUrl
                | uid lid | uid lid active]; simpl.
  - unfold apilinks_post.
    destruct (negb (truthy mid) || negb (truthy ty));
      [by intros [= _ <-]|].
    destruct (negb (includes type_enum ty)); [by intros [= _ <-]|].
    destruct (gen_while fuel draws (apilinks db) gen_init) as [st|];
      simpl; [|done].
    destruct (negb (isUnique st)); [by intros [= _ <-]|].
    destruct (gen_linkId st) as [tok|]; [|by intros [= _ <-]].
    destruct (call_trim mid) as [m|]; [|by intros [= _ <-]].
    destruct (as_string ty) as [t|]; [|by intros [= _ <-]].
    destruct (create uid tok m t (apilinks db)) as [[doc links']|] eqn:Hc;
      [|by intros [= _ <-]].
    intros [= _ <-]. simpl. by eapply create_ok.
  - unfold apilinks_delete.
    destruct (findOne (owned_by lid uid) (apilinks db)) as [l0|];
      [|by intros [= _ <-]].
    intros [= _ <-]. simpl. by apply findByIdAndDelete_ok.
  - unfold apilinks_update.
    destruct (negb (truthy mid) || negb (truthy ty));
      [by intros [= _ <-]|].
    destruct (negb (includes type_enum ty)); [by intros [= _ <-]|].
    destruct (findOne (owned_by lid uid) (apilinks db)) as [l0|] eqn:Hf;
      [|by intros [= _ <-]].
    apply findOne_Some in Hf as [Hl0 _].
    destruct (call_trim mid) as [m|]; [|by intros [= _ <-]].
    destruct (as_string ty) as [t|]; [|by intros [= _ <-]].
    match goal with |- context [save ?d _] => set (x := d) end.
    destruct (save x (apilinks db)) as [links'|] eqn:Hs;
      [|by intros [= _ <-]].
    intros [= _ <-]. simpl. by apply (save_ok x l0 (apilinks db)).
  - unfold apilinks_toggle.
    destruct (findOne (owned_by lid uid) (apilinks db)) as [l0|] eqn:Hf;
      [|by intros [= _ <-]].
    apply findOne_Some in Hf as [Hl0 _]. intros [= H].
    by eapply set_isActive_ok.
  - unfold apilinks_status.
    destruct (as_boolean active) as [b|]; [|by intros [= _ <-]].
    destruct (findOne (owned_by lid uid) (apilinks db)) as [l0|] eqn:Hf;
      [|by intros [= _ <-]].
    apply findOne_Some in Hf as [Hl0 _]. intros [= H].
    by eapply set_isActive_ok.
Qed.

Lemma public_get_ok now lid db resp db' :
  links_ok (apilinks db) →
  public_get now lid db = (resp, db') → links_ok (apilinks db').
Proof.
  intros Hok.
  destruct (findOne (active_with lid) (apilinks db)) as [l0|] eqn:Hf.
  - pose proof (findOne_Some _ _ _ Hf) as [Hl0 _].
    rewrite (public_get_accepted now lid db l0 Hf)
      by (by eapply links_ok_valid).
    intros [= _ <-]. simpl.
    apply (save_ok (accessed now l0) l0 (apilinks db)); try done.
    apply save_valid. rewrite validate_accessed.
    by eapply links_ok_valid.
  - unfold public_get. rewrite Hf. by intros [= _ <-].
Qed.

Lemma handle_ok fuel q db resp db' :
  links_ok (apilinks db) →
  handle fuel q db = Some (resp, db') → links_ok (apilinks db').
Proof.
  intros Hok. destruct q as [r | now lid | mid ty | mid]; simpl.
  - by apply manage_ok.
  - intros [= H]. by eapply public_get_ok.
  - by intros [= _ <-].
  - by intros [= _ <-].
Qed.

(** Starting from a store that satisfies the invariant, the empty one
    for instance, every sequence of requests leaves one that does. *)
Lemma run_ok fuel rs db db' :
  links_ok (apilinks db) → run fuel rs db = Some db' →
  links_ok (apilinks db').
Proof.
  revert db. induction rs as [|q rs IH]; simpl; intros db Hok.
  - by intros [= <-].
  - destruct (handle fuel q db) as [[resp db1]|] eqn:Hh; [|done].
    apply IH. by eapply handle_ok.
Qed.

(** With fuel for the ten attempts, a request always gets its
    response. *)
Lemma handle_total fuel q db :
  (10 ≤ fuel)%nat → is_Some (handle fuel q db).
Proof.
  intros Hfuel. destruct q as [r | now lid | mid ty | mid]; simpl;
    try by eexists.
  destruct r as [draws uid mid ty baseUrl | uid lid | uid lid mid ty baseUrl
                | uid lid | uid lid active]; simpl; try by eexists.
  unfold apilinks_post.
  destruct (negb (truthy mid) || negb (truthy ty)); [by eexists|].
  destruct (negb (includes type_enum ty)); [by eexists|].
  change gen_init with (mkGenState None false 0 (16 * 0)).
  destruct (gen_while_from fuel draws (apilinks db) 0 None)
    as [(k & _ & _ & _ & ->) | (_ & st & -> & _)]; [lia | lia | |]; simpl.
  - destruct (call_trim mid), (as_string ty); try by eexists.
    by destruct (create _ _ _ _ _) as [[? ?]|]; eexists.
  - by destruct (negb (isUnique st)), (gen_linkId st), (call_trim mid),
      (as_string ty); try destruct (create _ _ _ _ _) as [[? ?]|]; eexists.
Qed.

End Reachable.

(** ** Scenarios *)

Section Scenarios.

(** The points-table link of the sample database resolves to the
    standings of the latest snapshot and an empty summary. *)
Example scenario_points_table :
  (public_get 1700000000500 (lit "tokenA") Sample.db).1
  = {| status := 200;
       body := MatchData (JStr (lit "m-1")) (JNum 1700000000000)
                 (JObj [ (lit "pointsTable", JArr [JNum 10; JNum 4]);
                         (lit "matchSummary", JObj []) ]) |}.
Proof. reflexivity. Qed.

(** An enabled link on a match without a container: the access is
    counted and the answer is 404. *)
Example scenario_no_container :
  public_get 99 (lit "tokenC") Sample.db
  = (fail 404 "Match data not found",
     with_apilinks Sample.db
       [Sample.link_a; Sample.link_b; accessed 99 Sample.link_c]).
Proof. reflexivity. Qed.

(** Toggling a link twice gives back the flags it started from. *)
Example scenario_toggle_twice :
  map isActive
    (apilinks (apilinks_toggle 7 (lit "tokenA")
                 (apilinks_toggle 7 (lit "tokenA") Sample.db).2).2)
  = map isActive (apilinks Sample.db).
Proof. reflexivity. Qed.

(** A falsy field of the snapshot is projected like an absent one. *)
Example scenario_falsy_field :
  public_responseData (lit "points_table")
    [ (lit "pointsTable", JNum 0); (lit "MatchSummary1", JNull) ]
  = JObj [ (lit "pointsTable", JArr []); (lit "matchSummary", JObj []) ].
Proof. reflexivity. Qed.

(** A [matchId] that is white space only passes the check of the
    handler and is rejected by the schema when the link is saved. *)
Example scenario_blank_matchId :
  apilinks_update 7 (lit "tokenA") (JStr (lit "   ")) (JStr (lit "full"))
    (lit "http://h") Sample.db
  = (server_error, Sample.db).
Proof. reflexivity. Qed.

(** A [matchId] that is not a string has no [trim]. *)
Example scenario_numeric_matchId :
  apilinks_update 7 (lit "tokenA") (JNum 5) (JStr (lit "full"))
    (lit "http://h") Sample.db
  = (server_error, Sample.db).
Proof. reflexivity. Qed.

End Scenarios.

(** ** The bearer credential *)

Section Credential.

Implicit Types (db : Db) (h scheme tok rest : jstring).

Lemma split_on_whole sep s : sep ∉ s → split_on sep s = [s].
Proof.
  induction s as [|c s IH]; simpl; [done|].
  intros H. apply not_elem_of_cons in H as [Hc Hs].
  replace (c =? sep) with false by (symmetry; by apply N.eqb_neq).
  by rewrite IH.
Qed.

Lemma split_on_first sep a b :
  sep ∉ a → split_on sep (a ++ sep :: b) = a :: split_on sep b.
Proof.
  induction a as [|c a IH]; simpl; intros H.
  - by rewrite N.eqb_refl.
  - apply not_elem_of_cons in H as [Hc Ha].
    replace (c =? sep) with false by (symmetry; by apply N.eqb_neq).
    by rewrite IH.
Qed.

Lemma bearer_token_second scheme tok tail :
  32 ∉ scheme → 32 ∉ tok → (tail = [] ∨ ∃ rest, tail = 32 :: rest) →
  bearer_token (Some (scheme ++ 32 :: tok ++ tail)) = Some tok.
Proof.
  intros Hs Ht Htail. unfold bearer_token.
  replace (is_empty (scheme ++ 32 :: tok ++ tail)) with false
    by (by destruct scheme).
  rewrite split_on_first by done.
  destruct Htail as [->|(rest & ->)].
  - rewrite app_nil_r. by rewrite split_on_whole.
  - by rewrite split_on_first.
Qed.

(** A request without a credential in the second place of the
    [Authorization] header, because the header is absent, holds no space,
    or has nothing between its first space and the next one or the end,
    is answered 401 by every protected route; the handler does not run
    and the database is left as it is, whatever the verifier accepts. *)
Theorem protected_without_token_401
    (jwt_verify : jstring → option nat) (fuel : nat)
    (authHeader : option jstring) (route : nat → ManagerRequest) (db : Db) :
  authHeader = None
  ∨ (∃ h, authHeader = Some h ∧ (32 ∉ h))
  ∨ (∃ scheme tail, authHeader = Some (scheme ++ 32 :: tail)
                    ∧ (32 ∉ scheme)
                    ∧ (tail = [] ∨ ∃ rest, tail = 32 :: rest)) →
  protected jwt_verify fuel authHeader route db
  = Some (fail 401 "Access token required", db).
Proof.
  unfold protected, authenticateToken, bearer_token.
  intros [-> | [(h & -> & Hh) | (scheme & tail & -> & Hs & Htail)]].
  - done.
  - destruct (is_empty h) eqn:E; [by rewrite E|].
    by rewrite split_on_whole.
  - replace (is_empty (scheme ++ 32 :: tail)) with false
      by (by destruct scheme).
    rewrite split_on_first by done.
    by destruct Htail as [->|(rest & ->)].
Qed.

Lemma protected_without_token_401_witness :
  protected Fixture.jwt_verify 10 (Some (lit "good"))
    (fun uid => DeleteApiLink uid (lit "tokenA")) Sample.db
  = Some (fail 401 "Access token required", Sample.db)
  ∧ protected Fixture.jwt_verify 10 (Some (lit "Bearer  good"))
      (fun uid => DeleteApiLink uid (lit "tokenA")) Sample.db
    = Some (fail 401 "Access token required", Sample.db).
Proof.
  split.
  - apply (protected_without_token_401 Fixture.jwt_verify 10
             (Some (lit "good"))).
    right. left. exists (lit "good"). split; [done|].
    intros H. simpl in H.
    repeat (apply elem_of_cons in H as [H|H]; [done|]).
    by apply elem_of_nil in H.
  - apply (protected_without_token_401 Fixture.jwt_verify 10
             (Some (lit "Bearer  good"))).
    right. right. exists (lit "Bearer"), (lit " good").
    split; [done|]. split; [|right; by eexists].
    intros H. simpl in H.
    repeat (apply elem_of_cons in H as [H|H]; [done|]).
    by apply elem_of_nil in H.
Defined.

(** The credential is the second space-separated piece of the header and
    the first piece, the scheme, is not looked at: whatever the scheme, a
    credential the verifier rejects is answered 403 with the database
    unchanged, and one it accepts runs the handler for the user of the
    credential. *)
Theorem protected_checks_second_piece_only
    (jwt_verify : jstring → option nat) (fuel : nat)
    (scheme tok tail : jstring) (route : nat → ManagerRequest) (db : Db) :
  32 ∉ scheme → 32 ∉ tok → tok ≠ [] →
  (tail = [] ∨ ∃ rest, tail = 32 :: rest) →
  protected jwt_verify fuel (Some (scheme ++ 32 :: tok ++ tail)) route db
  = match jwt_verify tok with
    | None => Some (fail 403 "Invalid or expired token", db)
    | Some uid => manage fuel (route uid) db
    end.
Proof.
  intros Hs Ht Hne Htail. unfold protected, authenticateToken.
  rewrite bearer_token_second by done.
  by destruct tok.
Qed.

Lemma protected_checks_second_piece_only_witness :
  protected Fixture.jwt_verify 10 (Some (lit "Basic good"))
    (fun uid => DeleteApiLink uid (lit "tokenB")) Sample.db
  = Some (fail 404 "API link not found", Sample.db)
  ∧ protected Fixture.jwt_verify 10 (Some (lit "Bearer forged"))
      (fun uid => DeleteApiLink uid (lit "tokenB")) Sample.db
    = Some (fail 403 "Invalid or expired token", Sample.db).
Proof.
  assert (Hfree : ∀ s : jstring,
            forallb (fun c => negb (c =? 32)) s = true → 32 ∉ s).
  { intros s Hs Hin. rewrite forallb_forall in Hs.
    apply list_elem_of_In in Hin. by apply Hs in Hin. }
  split.
  - change (lit "Basic good") with (lit "Basic" ++ 32 :: lit "good" ++ []).
    rewrite (protected_checks_second_piece_only Fixture.jwt_verify 10
               (lit "Basic") (lit "good") []
               (fun uid => DeleteApiLink uid (lit "tokenB")) Sample.db);
      [reflexivity | by apply Hfree | by apply Hfree | done | by left].
  - change (lit "Bearer forged")
      with (lit "Bearer" ++ 32 :: lit "forged" ++ []).
    rewrite (protected_checks_second_piece_only Fixture.jwt_verify 10
               (lit "Bearer") (lit "forged") []
               (fun uid => DeleteApiLink uid (lit "tokenB")) Sample.db);
      [reflexivity | by apply Hfree | by apply Hfree | done | by left].
Defined.

End Credential.

(** ** The URL normalisation *)

Section UrlNormalisation.

Implicit Types (url : jstring) (b : bool).

Lemma replace_slash_runs_clean b url :
  includes_double_slash (replace_slash_runs b url) = false
  ∧ (b = true → head (replace_slash_runs b url) ≠ Some slash).
Proof.
  revert b. induction url as [|c url IH]; intros b; [done|].
  cbn [replace_slash_runs].
  destruct (c =? slash) eqn:Hc.
  - destruct b.
    + apply IH.
    + destruct (IH true) as [Hclean Hhead]. split; [|done].
      cbn [includes_double_slash].
      destruct (replace_slash_runs true url) as [|d out] eqn:Hout; [done|].
      rewrite Hclean, orb_false_r. apply andb_false_iff. right.
      apply N.eqb_neq. intros ->. by apply Hhead.
  - destruct (IH false) as [Hclean _]. split.
    + cbn [includes_double_slash].
      destruct (replace_slash_runs false url) as [|d out] eqn:Hout; [done|].
      by rewrite Hc, Hclean.
    + intros _. simpl. intros [= ->]. by rewrite N.eqb_refl in Hc.
Qed.

Lemma replace_slash_runs_fixed b url :
  includes_double_slash url = false →
  (b = true → head url ≠ Some slash) →
  replace_slash_runs b url = url.
Proof.
  revert b. induction url as [|c url IH]; intros b Hds Hb; [done|].
  cbn [replace_slash_runs].
  assert (Hrest : includes_double_slash url = false).
  { cbn [includes_double_slash] in Hds. destruct url as [|d url]; [done|].
    by apply orb_false_iff in Hds as [_ ?]. }
  destruct (c =? slash) eqn:Hc.
  - apply N.eqb_eq in Hc as ->.
    destruct b; [by destruct Hb|].
    f_equal. apply IH; [done|]. intros _.
    destruct url as [|d url]; [done|].
    cbn [includes_double_slash] in Hds.
    apply orb_false_iff in Hds as [Hd _]. simpl in Hd.
    simpl. intros [= ->]. by rewrite N.eqb_refl in Hd.
  - f_equal. by apply IH.
Qed.

Lemma replace_slash_runs_changes url :
  includes_double_slash url = true →
  (length (replace_slash_runs false url) < length url)%nat.
Proof.
  assert (Hle : ∀ b u, (length (replace_slash_runs b u) ≤ length u)%nat).
  { intros b u. revert b. induction u as [|c u IH]; intros b; [done|].
    cbn [replace_slash_runs].
    pose proof (IH true). pose proof (IH false).
    destruct (c =? slash), b; simpl; lia. }
  assert (Hrun : ∀ u, head u = Some slash →
            (length (replace_slash_runs true u) < length u)%nat).
  { intros [|c u]; [done|]. intros [= ->]. cbn [replace_slash_runs].
    rewrite N.eqb_refl. simpl. specialize (Hle true u). lia. }
  induction url as [|c url IH]; [done|]. intros Hds.
  cbn [replace_slash_runs]. cbn [includes_double_slash] in Hds.
  destruct url as [|d url]; [done|].
  apply orb_true_iff in Hds as [Hcd|Hds].
  - apply andb_true_iff in Hcd as [Hc Hd]. rewrite Hc.
    apply N.eqb_eq in Hd as ->.
    specialize (Hrun (slash :: url) eq_refl). simpl in *. lia.
  - specialize (IH Hds).
    destruct (c =? slash); simpl.
    + pose proof (Hle true (d :: url)). 
      assert (length (replace_slash_runs true (d :: url))
              ≤ length (replace_slash_runs false (d :: url)))%nat.
      { cbn [replace_slash_runs]. destruct (d =? slash); simpl; lia. }
      simpl in *. lia.
    + simpl in *. lia.
Qed.

(** After the normalisation the URL holds no two slashes in a row, and
    normalising again changes nothing. *)
Theorem normalize_url_no_double_slash (url : jstring) :
  includes_double_slash (normalize_url url) = false
  ∧ normalize_url (normalize_url url) = normalize_url url.
Proof.
  assert (H : includes_double_slash (normalize_url url) = false).
  { unfold normalize_url.
    destruct (includes_double_slash url) eqn:E; [|done].
    apply replace_slash_runs_clean. }
  split; [done|]. unfold normalize_url at 1. by rewrite H.
Qed.

(** The normalisation touches slashes only: the other code units of the
    URL, the ones of the query string among them, stay in their order;
    and the URL is changed, and gets shorter, exactly when it holds two
    slashes in a row, the two of a scheme inside the query string
    included. *)
Theorem normalize_url_drops_slashes_only (url : jstring) :
  List.filter (fun c => negb (c =? slash)) (normalize_url url)
  = List.filter (fun c => negb (c =? slash)) url
  ∧ (includes_double_slash url = false ↔ normalize_url url = url)
  ∧ (includes_double_slash url = true
     ↔ (length (normalize_url url) < length url)%nat).
Proof.
  split; [|split].
  - unfold normalize_url. destruct (includes_double_slash url); [|done].
    generalize false. induction url as [|c url IH]; intros b; [done|].
    cbn [replace_slash_runs List.filter].
    destruct (c =? slash) eqn:Hc; simpl.
    + destruct b; simpl; rewrite ?N.eqb_refl; simpl; apply IH.
    + rewrite Hc. simpl. f_equal. apply IH.
  - unfold normalize_url. split.
    + by intros ->.
    + destruct (includes_double_slash url) eqn:E; [|done].
      intros Heq. pose proof (replace_slash_runs_changes url E) as Hlt.
      rewrite Heq in Hlt. lia.
  - unfold normalize_url. split.
    + intros E. rewrite E. by apply replace_slash_runs_changes.
    + destruct (includes_double_slash url); [done | lia].
Qed.

End UrlNormalisation.

(** ** The list of the caller's links *)

Section OwnLinks.

Variable createdAt : ApiLink → Z.

Implicit Types (l d : ApiLink) (links : list ApiLink) (db : Db).

Lemma insert_newest_first_perm l links :
  insert_newest_first createdAt l links ≡ₚ l :: links.
Proof.
  induction links as [|d links IH]; simpl; [done|].
  destruct (createdAt d <=? createdAt l)%Z; [done|].
  rewrite IH. apply Permutation_swap.
Qed.

Lemma sort_newest_first_perm links :
  sort_newest_first createdAt links ≡ₚ links.
Proof.
  induction links as [|d links IH]; simpl; [done|].
  by rewrite insert_newest_first_perm, IH.
Qed.

Lemma insert_newest_first_sorted l links :
  StronglySorted (fun x y => (createdAt y ≤ createdAt x)%Z) links →
  StronglySorted (fun x y => (createdAt y ≤ createdAt x)%Z)
    (insert_newest_first createdAt l links).
Proof.
  induction 1 as [|d links Hs IH Hd]; simpl.
  - repeat constructor.
  - destruct (createdAt d <=? createdAt l)%Z eqn:E.
    + apply Z.leb_le in E. constructor; [by constructor|].
      constructor; [done|].
      rewrite Forall_forall in *. intros y Hy. specialize (Hd y Hy). lia.
    + apply Z.leb_gt in E. constructor; [done|].
      rewrite insert_newest_first_perm. constructor; [lia | done].
Qed.

Lemma sort_newest_first_sorted links :
  StronglySorted (fun x y => (createdAt y ≤ createdAt x)%Z)
    (sort_newest_first createdAt links).
Proof.
  induction links as [|d links IH]; simpl; [constructor|].
  by apply insert_newest_first_sorted.
Qed.

(** The list route returns the caller's links and no others: a link is
    in the answer exactly when it is stored with the caller as its owner,
    each with the public URL of its token, as many times as it is stored;
    [count] is their number; and a link never comes before one created
    later. *)
Theorem apilinks_get_own_links_newest_first
    (uid : nat) (baseUrl : jstring) (db : Db) :
  (∀ l url, (l, url) ∈ data (apilinks_get createdAt uid baseUrl db)
            ↔ l ∈ apilinks db ∧ userId l = uid
              ∧ url = publicUrl_of baseUrl (linkId l))
  ∧ (data (apilinks_get createdAt uid baseUrl db)).*1
    ≡ₚ List.filter (fun l => Nat.eqb (userId l) uid) (apilinks db)
  ∧ count (apilinks_get createdAt uid baseUrl db)
    = length (List.filter (fun l => Nat.eqb (userId l) uid) (apilinks db))
  ∧ StronglySorted (fun x y => (createdAt y ≤ createdAt x)%Z)
      (data (apilinks_get createdAt uid baseUrl db)).*1.
Proof.
  unfold apilinks_get. cbn [data count].
  set (own := List.filter (fun l => Nat.eqb (userId l) uid) (apilinks db)).
  assert (Hfst : (map (fun link => (link, publicUrl_of baseUrl (linkId link)))
                    (sort_newest_first createdAt own)).*1
                 = sort_newest_first createdAt own).
  { rewrite <- list_fmap_compose. apply list_fmap_id. }
  split; [|split; [|split]].
  - intros l url. rewrite list_elem_of_fmap. split.
    + intros (x & [= -> ->] & Hx).
      rewrite sort_newest_first_perm in Hx.
      apply list_elem_of_In, filter_In in Hx as [Hin Ho].
      apply Nat.eqb_eq in Ho. by rewrite <- list_elem_of_In in Hin.
    + intros (Hin & Ho & ->). exists l. split; [done|].
      rewrite sort_newest_first_perm.
      apply list_elem_of_In, filter_In. split; [by apply list_elem_of_In|].
      by apply Nat.eqb_eq.
  - rewrite Hfst. apply sort_newest_first_perm.
  - rewrite length_map. by rewrite sort_newest_first_perm.
  - rewrite Hfst. apply sort_newest_first_sorted.
Qed.

End OwnLinks.

(** ** Enabling, disabling and deleting a link *)

Section Lifecycle.

Implicit Types (l d x y : ApiLink) (links : list ApiLink) (db : Db).

Lemma with_apilinks_same db : with_apilinks db (apilinks db) = db.
Proof. by destruct db. Qed.

Lemma updateOne_twice x y links :
  _id x = _id y → updateOne y (updateOne x links) = updateOne y links.
Proof.
  intros Hid. induction links as [|d links IH]; simpl; [done|].
  destruct (Nat.eqb (_id d) (_id x)) eqn:E; simpl.
  - rewrite <- Hid, E. by rewrite Nat.eqb_refl.
  - rewrite <- Hid, E. by rewrite IH.
Qed.

Lemma updateOne_stored l links :
  NoDup (map _id links) → l ∈ links → updateOne l links = links.
Proof.
  intros Hnd Hl.
  destruct (updateOne_spec l l links Hnd Hl eq_refl) as (b & a & Hb & Hu).
  by rewrite Hu.
Qed.

Lemma with_isActive_same l : with_isActive (isActive l) l = l.
Proof. by destruct l. Qed.

Lemma with_isActive_twice b c l :
  with_isActive c (with_isActive b l) = with_isActive c l.
Proof. done. Qed.

(** Setting the flag of a stored link. *)
Lemma set_isActive_spec l b db :
  links_ok (apilinks db) → l ∈ apilinks db →
  set_isActive l b db
  = ({| status := 200;
        body := LinkData (with_isActive b l) None
                  (Some (lit "API link "
                         ++ (if b then lit "enabled" else lit "disabled")
                         ++ lit " successfully")) |},
     with_apilinks db (updateOne (with_isActive b l) (apilinks db))).
Proof.
  intros Hok Hl. unfold set_isActive. fold (with_isActive b l).
  rewrite save_valid; [done|].
  change (validate (with_isActive b l)) with (validate l).
  by eapply links_ok_valid.
Qed.

Lemma links_ok_set_isActive l b links :
  links_ok links → l ∈ links →
  links_ok (updateOne (with_isActive b l) links).
Proof.
  intros Hok Hl.
  apply (save_ok (with_isActive b l) l links); try done.
  apply save_valid.
  change (validate (with_isActive b l)) with (validate l).
  by eapply links_ok_valid.
Qed.

Lemma elem_of_updateOne x l links :
  NoDup (map _id links) → l ∈ links → _id x = _id l →
  x ∈ updateOne x links.
Proof.
  intros Hnd Hl Hid.
  destruct (updateOne_spec x l links Hnd Hl Hid) as (b & a & _ & ->).
  apply elem_of_app. right. by left.
Qed.

Lemma find_owned_flagged l b links :
  links_ok links → l ∈ links →
  findOne (owned_by (linkId l) (userId l))
    (updateOne (with_isActive b l) links)
  = Some (with_isActive b l).
Proof.
  intros Hok Hl.
  apply (find_owned (updateOne (with_isActive b l) links)
           (with_isActive b l)).
  - by apply links_ok_set_isActive.
  - apply (elem_of_updateOne _ l); [by destruct Hok | done | done].
Qed.

(** On the paths the record carries, two toggles of the same token by
    the same caller give back the stored links of the start. *)
Lemma toggle_twice_on_record
    (uid : nat) (lid : jstring) (db : Db) :
  links_ok (apilinks db) →
  (apilinks_toggle uid lid (apilinks_toggle uid lid db).2).2 = db.
Proof.
  intros Hok. unfold apilinks_toggle at 2.
  destruct (findOne (owned_by lid uid) (apilinks db)) as [l|] eqn:Hf.
  - pose proof (findOne_Some _ _ _ Hf) as [Hl Ho].
    apply owned_by_true in Ho as [<- <-].
    rewrite set_isActive_spec by done. cbn [snd].
    unfold apilinks_toggle. cbn [apilinks with_apilinks].
    rewrite find_owned_flagged by done.
    rewrite set_isActive_spec.
    + cbn [snd apilinks with_apilinks].
      change (isActive (with_isActive (negb (isActive l)) l))
        with (negb (isActive l)).
      rewrite negb_involutive, with_isActive_twice, with_isActive_same.
      rewrite updateOne_twice by done.
      rewrite (updateOne_stored l (apilinks db) (ok_ids _ Hok) Hl).
      unfold with_apilinks. cbn [collections]. by destruct db.
    + cbn [apilinks]. by apply links_ok_set_isActive.
    + cbn [apilinks]. apply (elem_of_updateOne _ l);
        [by destruct Hok | done | done].
  - cbn [snd]. unfold apilinks_toggle. by rewrite Hf.
Qed.

End Lifecycle.

Section LifecycleOfOneLink.

Implicit Types (l d x y : ApiLink) (links : list ApiLink) (db : Db).

Lemma fixture_links_ok : links_ok (apilinks Fixture.db).
Proof.
  split.
  - repeat constructor.
  - apply (bool_decide_unpack _). by vm_compute.
  - apply (bool_decide_unpack _). by vm_compute.
Qed.

Lemma apilinks_status_owned l b db :
  links_ok (apilinks db) → l ∈ apilinks db →
  apilinks_status (userId l) (linkId l) (JBool b) db
  = ({| status := 200;
        body := LinkData (with_isActive b l) None
                  (Some (lit "API link "
                         ++ (if b then lit "enabled" else lit "disabled")
                         ++ lit " successfully")) |},
     with_apilinks db (updateOne (with_isActive b l) (apilinks db))).
Proof.
  intros Hok Hl. unfold apilinks_status. cbn [as_boolean].
  rewrite find_owned by done. by apply set_isActive_spec.
Qed.

(** On the paths the record carries: the status route writes the flag
    over the caller's link, the same request once more writes the same,
    and a body whose [isActive] is not a boolean is refused. *)
Lemma status_on_record
    (b : bool) (db : Db) (l : ApiLink) :
  links_ok (apilinks db) → l ∈ apilinks db →
  ∃ before after db',
    apilinks db = before ++ l :: after
    ∧ db' = with_apilinks db (before ++ with_isActive b l :: after)
    ∧ (apilinks_status (userId l) (linkId l) (JBool b) db).2 = db'
    ∧ body (apilinks_status (userId l) (linkId l) (JBool b) db).1
      = LinkData (with_isActive b l) None
          (Some (lit "API link "
                 ++ (if b then lit "enabled" else lit "disabled")
                 ++ lit " successfully"))
    ∧ apilinks_status (userId l) (linkId l) (JBool b) db'
      = ((apilinks_status (userId l) (linkId l) (JBool b) db).1, db')
    ∧ ∀ v, (∀ c, v ≠ JBool c) →
           apilinks_status (userId l) (linkId l) v db
           = (fail 400 "isActive must be a boolean value", db).
Proof.
  intros Hok Hl.
  destruct (updateOne_spec (with_isActive b l) l (apilinks db))
    as (before & after & Hdb & Hup); [by destruct Hok | done | done |].
  exists before, after,
    (with_apilinks db (before ++ with_isActive b l :: after)).
  split; [done|]. split; [reflexivity|].
  rewrite apilinks_status_owned by done. cbn [fst snd].
  rewrite Hup. split; [done|]. split; [done|]. split.
  - assert (Hok' : links_ok (before ++ with_isActive b l :: after)).
    { rewrite <- Hup. by apply links_ok_set_isActive. }
    assert (Hin : with_isActive b l ∈ before ++ with_isActive b l :: after).
    { apply elem_of_app. right. by left. }
    pose proof (apilinks_status_owned (with_isActive b l) b
                  (with_apilinks db (before ++ with_isActive b l :: after))
                  Hok' Hin) as Hagain.
    cbn [userId linkId with_isActive] in Hagain. rewrite Hagain.
    f_equal. cbn [apilinks with_apilinks].
    change ({| _id := _id l; userId := userId l; linkId := linkId l;
               matchId := matchId l; type := type l; isActive := b;
               lastAccessed := lastAccessed l;
               accessCount := accessCount l |})
      with (with_isActive b l).
    rewrite with_isActive_twice.
    by rewrite (updateOne_stored _ _ (ok_ids _ Hok') Hin).
  - intros v Hv. unfold apilinks_status.
    destruct v; try done. by destruct (Hv b0).
Qed.

(** Two toggle requests of the owner bring [isActive] of the link back
    to the value it had, the first one having flipped it; the other
    paths of the link named here ([_id], [userId], [linkId], [matchId],
    [type], [lastAccessed], [accessCount]), the other links and the
    snapshots are as they were. *)
Theorem apilinks_toggle_twice_same_flag (db : Db) (l : ApiLink) :
  links_ok (apilinks db) → l ∈ apilinks db →
  ∃ before after l1 l2,
    apilinks db = before ++ l :: after
    ∧ apilinks (apilinks_toggle (userId l) (linkId l) db).2
      = before ++ l1 :: after
    ∧ apilinks
        (apilinks_toggle (userId l) (linkId l)
           (apilinks_toggle (userId l) (linkId l) db).2).2
      = before ++ l2 :: after
    ∧ isActive l1 = negb (isActive l)
    ∧ isActive l2 = isActive l
    ∧ paths_but_isActive l1 = paths_but_isActive l
    ∧ paths_but_isActive l2 = paths_but_isActive l
    ∧ collections
        (apilinks_toggle (userId l) (linkId l)
           (apilinks_toggle (userId l) (linkId l) db).2).2
      = collections db.
Proof.
  intros Hok Hl.
  destruct (updateOne_spec (with_isActive (negb (isActive l)) l) l
              (apilinks db))
    as (before & after & Hdb & Hup); [by destruct Hok | done | done |].
  exists before, after, (with_isActive (negb (isActive l)) l), l.
  rewrite (toggle_twice_on_record (userId l) (linkId l) db Hok).
  split; [done|]. split.
  - unfold apilinks_toggle. rewrite find_owned by done.
    rewrite set_isActive_spec by done. by rewrite <- Hup.
  - by rewrite <- Hdb.
Qed.

Lemma apilinks_toggle_twice_same_flag_witness :
  ∃ before after l1 l2,
    apilinks Fixture.db = before ++ Sample.link_b :: after
    ∧ apilinks (apilinks_toggle 8 (lit "tokenB") Fixture.db).2
      = before ++ l1 :: after
    ∧ apilinks
        (apilinks_toggle 8 (lit "tokenB")
           (apilinks_toggle 8 (lit "tokenB") Fixture.db).2).2
      = before ++ l2 :: after
    ∧ isActive l1 = true
    ∧ isActive l2 = false
    ∧ paths_but_isActive l1 = paths_but_isActive Sample.link_b
    ∧ paths_but_isActive l2 = paths_but_isActive Sample.link_b
    ∧ collections
        (apilinks_toggle 8 (lit "tokenB")
           (apilinks_toggle 8 (lit "tokenB") Fixture.db).2).2
      = collections Fixture.db.
Proof.
  apply (apilinks_toggle_twice_same_flag Fixture.db Sample.link_b
           fixture_links_ok).
  apply list_elem_of_further, list_elem_of_here.
Defined.

(** The status route sets [isActive] of the caller's link to the boolean
    of the body and leaves the other paths of the link named here
    ([_id], [userId], [linkId], [matchId], [type], [lastAccessed],
    [accessCount]), the other links and the snapshots as they were; the
    same request once more is answered 200 again and leaves the flag and
    those paths where the first one put them; and a body whose
    [isActive] is not a boolean, the strings and the numbers among them,
    is refused with 400 and writes nothing. *)
Theorem apilinks_status_sets_flag (b : bool) (db : Db) (l : ApiLink) :
  links_ok (apilinks db) → l ∈ apilinks db →
  ∃ before after l1 l2,
    apilinks db = before ++ l :: after
    ∧ apilinks (apilinks_status (userId l) (linkId l) (JBool b) db).2
      = before ++ l1 :: after
    ∧ collections (apilinks_status (userId l) (linkId l) (JBool b) db).2
      = collections db
    ∧ status (apilinks_status (userId l) (linkId l) (JBool b) db).1
      = 200%nat
    ∧ isActive l1 = b
    ∧ paths_but_isActive l1 = paths_but_isActive l
    ∧ apilinks
        (apilinks_status (userId l) (linkId l) (JBool b)
           (apilinks_status (userId l) (linkId l) (JBool b) db).2).2
      = before ++ l2 :: after
    ∧ status
        (apilinks_status (userId l) (linkId l) (JBool b)
           (apilinks_status (userId l) (linkId l) (JBool b) db).2).1
      = 200%nat
    ∧ isActive l2 = b
    ∧ paths_but_isActive l2 = paths_but_isActive l
    ∧ ∀ v, (∀ c, v ≠ JBool c) →
           apilinks_status (userId l) (linkId l) v db
           = (fail 400 "isActive must be a boolean value", db).
Proof.
  intros Hok Hl.
  destruct (status_on_record b db l Hok Hl)
    as (before & after & db' & Hdb & Hdb' & Hset & Hbody & Hagain & Hbad).
  exists before, after, (with_isActive b l), (with_isActive b l).
  rewrite Hset, Hagain, Hdb'. cbn [fst snd apilinks collections with_apilinks].
  repeat split; try done.
  all: by rewrite apilinks_status_owned.
Qed.

Lemma apilinks_status_sets_flag_witness :
  ∃ before after l1 l2,
    apilinks Fixture.db = before ++ Fixture.link_e :: after
    ∧ apilinks (apilinks_status 8 (lit "tokenE") (JBool false) Fixture.db).2
      = before ++ l1 :: after
    ∧ collections
        (apilinks_status 8 (lit "tokenE") (JBool false) Fixture.db).2
      = collections Fixture.db
    ∧ status (apilinks_status 8 (lit "tokenE") (JBool false) Fixture.db).1
      = 200%nat
    ∧ isActive l1 = false
    ∧ paths_but_isActive l1 = paths_but_isActive Fixture.link_e
    ∧ apilinks
        (apilinks_status 8 (lit "tokenE") (JBool false)
           (apilinks_status 8 (lit "tokenE") (JBool false) Fixture.db).2).2
      = before ++ l2 :: after
    ∧ status
        (apilinks_status 8 (lit "tokenE") (JBool false)
           (apilinks_status 8 (lit "tokenE") (JBool false) Fixture.db).2).1
      = 200%nat
    ∧ isActive l2 = false
    ∧ paths_but_isActive l2 = paths_but_isActive Fixture.link_e
    ∧ ∀ v, (∀ c, v ≠ JBool c) →
           apilinks_status 8 (lit "tokenE") v Fixture.db
           = (fail 400 "isActive must be a boolean value", Fixture.db).
Proof.
  apply (apilinks_status_sets_flag false Fixture.db Fixture.link_e
           fixture_links_ok).
  do 3 apply list_elem_of_further. apply list_elem_of_here.
Defined.

(** Deleting one's link removes that link and no other; afterwards its
    token is refused by the public resolver like a token that never
    existed, and the same delete request is answered 404. *)
Theorem apilinks_delete_removes_the_link (db : Db) (l : ApiLink) :
  links_ok (apilinks db) → l ∈ apilinks db →
  ∃ before after db',
    apilinks db = before ++ l :: after
    ∧ db' = with_apilinks db (before ++ after)
    ∧ apilinks_delete (userId l) (linkId l) db
      = ({| status := 200;
            body := Done (lit "API link deleted successfully") |}, db')
    ∧ (∀ d, d ∈ apilinks db' → linkId d ≠ linkId l ∧ _id d ≠ _id l)
    ∧ (∀ now, public_get now (linkId l) db' = (fail 404 "Not found", db'))
    ∧ apilinks_delete (userId l) (linkId l) db'
      = (fail 404 "API link not found", db').
Proof.
  intros Hok Hl.
  destruct (findByIdAndDelete_spec l (apilinks db))
    as (before & after & Hdb & Hdel); [by destruct Hok | done |].
  exists before, after, (with_apilinks db (before ++ after)).
  split; [done|]. split; [reflexivity|].
  assert (Hgone : ∀ d, d ∈ before ++ after →
                       linkId d ≠ linkId l ∧ _id d ≠ _id l).
  { destruct Hok as [_ Hi Hk]. rewrite Hdb in Hi, Hk.
    intros d Hd. split; intros Heq.
    - rewrite map_app in Hk. simpl in Hk.
      apply NoDup_app in Hk as (_ & Hdisj & Ha).
      apply NoDup_cons in Ha as [Hna _].
      apply elem_of_app in Hd as [Hd|Hd].
      + apply (Hdisj (linkId d)); [by apply list_elem_of_fmap_2|].
        rewrite Heq. by left.
      + apply Hna. rewrite <- Heq. by apply list_elem_of_fmap_2.
    - rewrite map_app in Hi. simpl in Hi.
      apply NoDup_app in Hi as (_ & Hdisj & Ha).
      apply NoDup_cons in Ha as [Hna _].
      apply elem_of_app in Hd as [Hd|Hd].
      + apply (Hdisj (_id d)); [by apply list_elem_of_fmap_2|].
        rewrite Heq. by left.
      + apply Hna. rewrite <- Heq. by apply list_elem_of_fmap_2. }
  split.
  { unfold apilinks_delete. rewrite find_owned by done. by rewrite Hdel. }
  split; [exact Hgone|]. split.
  - intros now. apply public_get_rejected. intros d Hd Heq.
    by destruct (Hgone d Hd).
  - unfold apilinks_delete. rewrite find_not_owned; [done|].
    intros d Hd Heq. by destruct (Hgone d Hd).
Qed.

Lemma apilinks_delete_removes_the_link_witness :
  ∃ before after db',
    apilinks Fixture.db = before ++ Fixture.link_e :: after
    ∧ db' = with_apilinks Fixture.db (before ++ after)
    ∧ apilinks_delete 8 (lit "tokenE") Fixture.db
      = ({| status := 200;
            body := Done (lit "API link deleted successfully") |}, db')
    ∧ (∀ d, d ∈ apilinks db' →
            linkId d ≠ lit "tokenE" ∧ _id d ≠ 5%nat)
    ∧ (∀ now, public_get now (lit "tokenE") db'
              = (fail 404 "Not found", db'))
    ∧ apilinks_delete 8 (lit "tokenE") db'
      = (fail 404 "API link not found", db').
Proof.
  apply (apilinks_delete_removes_the_link Fixture.db Fixture.link_e
           fixture_links_ok).
  do 3 apply list_elem_of_further. apply list_elem_of_here.
Defined.

(** Disabling a link revokes it at once: until it is enabled again the
    public resolver refuses its token with the 404 of an unknown token
    and counts nothing; once it is enabled again the token is accepted
    and the answer is the one the match's container decides. *)
Theorem disabled_link_refused_until_enabled (db : Db) (l : ApiLink) :
  links_ok (apilinks db) → l ∈ apilinks db →
  ∃ off on,
    (apilinks_status (userId l) (linkId l) (JBool false) db).2 = off
    ∧ (apilinks_status (userId l) (linkId l) (JBool true) off).2 = on
    ∧ (∀ now, public_get now (linkId l) off = (fail 404 "Not found", off))
    ∧ (∀ now, (public_get now (linkId l) on).1
              = resolved db (public_collectionName (matchId l)) (type l)).
Proof.
  intros Hok Hl.
  pose proof (ok_ids _ Hok) as Hi.
  set (links1 := updateOne (with_isActive false l) (apilinks db)).
  assert (Hok1 : links_ok links1) by (by apply links_ok_set_isActive).
  assert (Hin1 : with_isActive false l ∈ links1)
    by (by apply (elem_of_updateOne _ l)).
  exists (with_apilinks db links1),
         (with_apilinks db (updateOne (with_isActive true l) (apilinks db))).
  split; [by rewrite apilinks_status_owned|].
  split.
  { pose proof (apilinks_status_owned (with_isActive false l) true
                  (with_apilinks db links1) Hok1 Hin1) as H.
    cbn [userId linkId with_isActive] in H. rewrite H. cbn [snd].
    unfold with_apilinks. cbn [apilinks collections]. f_equal.
    change ({| _id := _id l; userId := userId l; linkId := linkId l;
               matchId := matchId l; type := type l; isActive := false;
               lastAccessed := lastAccessed l;
               accessCount := accessCount l |})
      with (with_isActive false l).
    rewrite with_isActive_twice. unfold links1.
    by rewrite updateOne_twice. }
  split.
  - intros now. apply public_get_rejected. cbn [apilinks with_apilinks].
    intros d Hd Heq.
    by rewrite (linkId_unique links1 (with_isActive false l) d
                  (ok_linkIds _ Hok1) Hin1 Hd).
  - intros now.
    set (links2 := updateOne (with_isActive true l) (apilinks db)).
    assert (Hok2 : links_ok links2) by (by apply links_ok_set_isActive).
    assert (Hin2 : with_isActive true l ∈ links2)
      by (by apply (elem_of_updateOne _ l)).
    rewrite (public_get_accepted now (linkId l) (with_apilinks db links2)
               (with_isActive true l)); [done| |].
    + by apply (find_active (with_apilinks db links2) (with_isActive true l)).
    + by apply (links_ok_valid links2).
Qed.

Lemma disabled_link_refused_until_enabled_witness :
  ∃ off on,
    (apilinks_status 7 (lit "tokenA") (JBool false) Fixture.db).2 = off
    ∧ (apilinks_status 7 (lit "tokenA") (JBool true) off).2 = on
    ∧ (∀ now, public_get now (lit "tokenA") off
              = (fail 404 "Not found", off))
    ∧ (∀ now, (public_get now (lit "tokenA") on).1
              = resolved Fixture.db (lit "match_m_1") (lit "points_table")).
Proof.
  apply (disabled_link_refused_until_enabled Fixture.db Sample.link_a
           fixture_links_ok).
  apply list_elem_of_here.
Defined.

End LifecycleOfOneLink.

(** ** What one request writes *)

Section Effects.

Implicit Types (l d x doc : ApiLink) (links : list ApiLink) (db : Db).

Lemma set_isActive_effect l0 b db resp db' :
  set_isActive l0 b db = (resp, db') →
  collections db' = collections db
  ∧ (apilinks db' = apilinks db
     ∨ apilinks db' = updateOne (with_isActive b l0) (apilinks db)).
Proof.
  unfold set_isActive. fold (with_isActive b l0).
  destruct (save _ _) as [links'|] eqn:Hs; intros [= _ <-].
  - apply save_Some in Hs as [_ ->]. split; [done | by right].
  - split; [done | by left].
Qed.

(** The writes of a request of the link manager: nothing, one link of
    the caller written over, one link of the caller deleted, or one link
    of the caller added. *)
Lemma manage_effect fuel r db resp db' :
  manage fuel r db = Some (resp, db') →
  collections db' = collections db
  ∧ (apilinks db' = apilinks db
     ∨ (∃ l0 x, l0 ∈ apilinks db ∧ userId l0 = requester r
                ∧ _id x = _id l0 ∧ userId x = userId l0
                ∧ linkId x = linkId l0 ∧ same_telemetry l0 x
                ∧ (matchId x = matchId l0 ∨ ∃ m, matchId x = trim m)
                ∧ apilinks db' = updateOne x (apilinks db))
     ∨ (∃ l0, l0 ∈ apilinks db ∧ userId l0 = requester r
              ∧ apilinks db' = findByIdAndDelete (_id l0) (apilinks db))
     ∨ (∃ doc m, userId doc = requester r ∧ matchId doc = trim m
                 ∧ _id doc = new_ObjectId (apilinks db)
                 ∧ accessCount doc = 0%Z ∧ lastAccessed doc = None
                 ∧ validate doc = true
                 ∧ (linkId doc ∉ map linkId (apilinks db))
                 ∧ apilinks db' = apilinks db ++ [doc])).
Proof.
  destruct r as [draws uid mid ty baseUrl | uid lid | uid lid mid ty baseUrl
                | uid lid | uid lid active]; cbn [manage requester].
  - unfold apilinks_post.
    destruct (negb (truthy mid) || negb (truthy ty));
      [intros [= _ <-]; by auto|].
    destruct (negb (includes type_enum ty)); [intros [= _ <-]; by auto|].
    destruct (gen_while fuel draws (apilinks db) gen_init) as [st|];
      simpl; [|done].
    destruct (negb (isUnique st)); [intros [= _ <-]; by auto|].
    destruct (gen_linkId st) as [tok|]; [|intros [= _ <-]; by auto].
    destruct mid as [| | | |m| |]; simpl; try (intros [= _ <-]; by auto).
    destruct (as_string ty) as [t|]; [|intros [= _ <-]; by auto].
    destruct (create uid tok (trim m) t (apilinks db))
      as [[doc links']|] eqn:Hc; [|intros [= _ <-]; by auto].
    intros [= _ <-]. split; [done|]. right. right. right.
    apply create_Some in Hc as (Hdoc & -> & Hv & Hfresh).
    exists doc, m. rewrite Hdoc. simpl. repeat split; try done.
    by rewrite <- Hdoc.
  - unfold apilinks_delete.
    destruct (findOne (owned_by lid uid) (apilinks db)) as [l0|] eqn:Hf;
      intros [= _ <-]; [|by auto].
    apply findOne_Some in Hf as [Hl0 Ho].
    apply owned_by_true in Ho as [_ Hu].
    split; [done|]. right. right. left. by exists l0.
  - unfold apilinks_update.
    destruct (negb (truthy mid) || negb (truthy ty));
      [intros [= _ <-]; by auto|].
    destruct (negb (includes type_enum ty)); [intros [= _ <-]; by auto|].
    destruct (findOne (owned_by lid uid) (apilinks db)) as [l0|] eqn:Hf;
      [|intros [= _ <-]; by auto].
    apply findOne_Some in Hf as [Hl0 Ho].
    apply owned_by_true in Ho as [_ Hu].
    destruct mid as [| | | |m| |]; simpl; try (intros [= _ <-]; by auto).
    destruct (as_string ty) as [t|]; [|intros [= _ <-]; by auto].
    match goal with |- context [save ?d _] => set (x := d) end.
    destruct (save x (apilinks db)) as [links'|] eqn:Hs;
      intros [= _ <-]; [|by auto].
    apply save_Some in Hs as [_ ->].
    split; [done|]. right. left. exists l0, x.
    repeat split; try done. right. by exists m.
  - intros [= H]. revert H. unfold apilinks_toggle.
    destruct (findOne (owned_by lid uid) (apilinks db)) as [l0|] eqn:Hf;
      [|intros [= _ <-]; by auto].
    apply findOne_Some in Hf as [Hl0 Ho].
    apply owned_by_true in Ho as [_ Hu].
    intros H. apply set_isActive_effect in H as [Hc [H|H]];
      (split; [done|]); [by left|].
    right. left. exists l0, (with_isActive (negb (isActive l0)) l0).
    repeat split; try done. by left.
  - intros [= H]. revert H. unfold apilinks_status.
    destruct (as_boolean active) as [b|]; [|intros [= _ <-]; by auto].
    destruct (findOne (owned_by lid uid) (apilinks db)) as [l0|] eqn:Hf;
      [|intros [= _ <-]; by auto].
    apply findOne_Some in Hf as [Hl0 Ho].
    apply owned_by_true in Ho as [_ Hu].
    intros H. apply set_isActive_effect in H as [Hc [H|H]];
      (split; [done|]); [by left|].
    right. left. exists l0, (with_isActive b l0).
    repeat split; try done. by left.
Qed.

(** The writes of the resolver: nothing, or the access counted on one
    stored link. *)
Lemma public_get_effect now lid db resp db' :
  public_get now lid db = (resp, db') →
  collections db' = collections db
  ∧ (apilinks db' = apilinks db
     ∨ ∃ l0, l0 ∈ apilinks db
             ∧ apilinks db' = updateOne (accessed now l0) (apilinks db)).
Proof.
  unfold public_get.
  destruct (findOne (active_with lid) (apilinks db)) as [l0|] eqn:Hf;
    [|intros [= _ <-]; by auto].
  apply findOne_Some in Hf as [Hl0 _]. fold (accessed now l0).
  destruct (save (accessed now l0) (apilinks db)) as [links'|] eqn:Hs;
    [|intros [= _ <-]; by auto].
  apply save_Some in Hs as [_ ->].
  cbn [matchId type accessed].
  destruct (negb (collectionExists _ _));
    [intros [= _ <-]; split; [done|]; right; by exists l0|].
  destruct (findLatest _); intros [= _ <-];
    (split; [done|]); right; by exists l0.
Qed.

Lemma updateOne_other x l0 l links :
  NoDup (map _id links) → l0 ∈ links → _id x = _id l0 →
  l ≠ l0 → l ≠ x → (l ∈ updateOne x links ↔ l ∈ links).
Proof.
  intros Hnd Hl0 Hid Hne Hnx.
  destruct (updateOne_spec x l0 links Hnd Hl0 Hid) as (b & a & -> & ->).
  rewrite !elem_of_app, !elem_of_cons. split; intros [?|[?|?]]; auto; done.
Qed.

Lemma findByIdAndDelete_other l0 l links :
  NoDup (map _id links) → l0 ∈ links → l ≠ l0 →
  (l ∈ findByIdAndDelete (_id l0) links ↔ l ∈ links).
Proof.
  intros Hnd Hl0 Hne.
  destruct (findByIdAndDelete_spec l0 links Hnd Hl0) as (b & a & -> & ->).
  rewrite !elem_of_app, !elem_of_cons.
  split; [intros [?|?]; auto | intros [?|[?|?]]; auto; done].
Qed.

(** A request of the link manager neither changes, removes nor adds a
    link of a user other than the caller: the links of every other user
    are the same before and after. *)
Theorem manage_leaves_other_users_links
    (fuel : nat) (r : ManagerRequest) (db db' : Db) (resp : Response)
    (l : ApiLink) :
  links_ok (apilinks db) →
  manage fuel r db = Some (resp, db') →
  userId l ≠ requester r →
  (l ∈ apilinks db' ↔ l ∈ apilinks db).
Proof.
  intros Hok Hm Hother. pose proof (ok_ids _ Hok) as Hi.
  destruct (manage_effect fuel r db resp db' Hm)
    as [_ [-> | [(l0 & x & Hl0 & Hu & Hid & Hux & _ & _ & _ & ->)
               | [(l0 & Hl0 & Hu & ->)
                 | (doc & m & Hu & _ & _ & _ & _ & _ & _ & ->)]]]].
  - done.
  - apply (updateOne_other x l0); try done; intros ->; congruence.
  - apply findByIdAndDelete_other; try done. intros ->. congruence.
  - rewrite elem_of_app, list_elem_of_singleton.
    split; [|by left]. intros [H| ->]; [done | congruence].
Qed.

Lemma manage_leaves_other_users_links_witness :
  Sample.link_b ∈ apilinks
    (apilinks_update 7 (lit "tokenB") (JStr (lit "m-9")) (JStr (lit "full"))
       (lit "http://h") Fixture.db).2
  ↔ Sample.link_b ∈ apilinks Fixture.db.
Proof.
  apply (manage_leaves_other_users_links 10
           (PatchUpdate 7 (lit "tokenB") (JStr (lit "m-9"))
              (JStr (lit "full")) (lit "http://h"))
           Fixture.db
           (apilinks_update 7 (lit "tokenB") (JStr (lit "m-9"))
              (JStr (lit "full")) (lit "http://h") Fixture.db).2
           (apilinks_update 7 (lit "tokenB") (JStr (lit "m-9"))
              (JStr (lit "full")) (lit "http://h") Fixture.db).1
           Sample.link_b fixture_links_ok eq_refl).
  done.
Defined.

(** No request writes to the containers of snapshots: the collections
    other than the links are the same after every request. *)
Theorem handle_never_writes_snapshots
    (fuel : nat) (q : Request) (db db' : Db) (resp : Response) :
  handle fuel q db = Some (resp, db') →
  collections db' = collections db.
Proof.
  destruct q as [r | now lid | mid ty | mid]; cbn [handle].
  - intros H. by apply manage_effect in H as [? _].
  - intros [= H]. by apply public_get_effect in H as [? _].
  - by intros [= _ <-].
  - by intros [= _ <-].
Qed.

Lemma handle_never_writes_snapshots_witness :
  collections (public_get 5 (lit "tokenA") Fixture.db).2
  = collections Fixture.db.
Proof.
  apply (handle_never_writes_snapshots 10 (GetPublic 5 (lit "tokenA"))
           Fixture.db (public_get 5 (lit "tokenA") Fixture.db).2
           (public_get 5 (lit "tokenA") Fixture.db).1 eq_refl).
Defined.

End Effects.

(** ** What every sequence of requests keeps *)

Section Kept.

Implicit Types (l d x doc : ApiLink) (links : list ApiLink) (db : Db).

Lemma Forall_updateOne (P : ApiLink → Prop) x links :
  Forall P links → P x → Forall P (updateOne x links).
Proof.
  intros Hall Hx. induction Hall as [|d links Hd Hall IH]; simpl; [done|].
  destruct (Nat.eqb (_id d) (_id x)); by constructor.
Qed.

Lemma Forall_findByIdAndDelete (P : ApiLink → Prop) id links :
  Forall P links → Forall P (findByIdAndDelete id links).
Proof.
  intros Hall. rewrite Forall_forall in *. intros x Hx. apply Hall.
  eapply elem_of_sublist; [done | apply findByIdAndDelete_sublist].
Qed.

(** A property of links that holds of a new link and that the writes of
    the handlers keep holds of every stored link after a request. *)
Lemma handle_Forall (P : ApiLink → Prop) fuel q db resp db' :
  (∀ doc m, accessCount doc = 0%Z → lastAccessed doc = None →
            matchId doc = trim m → P doc) →
  (∀ l x, P l → same_telemetry l x →
          (matchId x = matchId l ∨ ∃ m, matchId x = trim m) → P x) →
  (∀ l now, P l → P (accessed now l)) →
  Forall P (apilinks db) →
  handle fuel q db = Some (resp, db') →
  Forall P (apilinks db').
Proof.
  intros Hnew Hupd Hacc Hall.
  destruct q as [r | now lid | mid ty | mid]; cbn [handle].
  - intros H. apply manage_effect in H
      as [_ [-> | [(l0 & x & Hl0 & _ & _ & _ & _ & Hsame & Hmid & ->)
                 | [(l0 & _ & _ & ->)
                   | (doc & m & _ & Hm & _ & Hc & Hd & _ & _ & ->)]]]].
    + done.
    + apply Forall_updateOne; [done|].
      apply (Hupd l0); [|done..].
      rewrite Forall_forall in Hall. by apply Hall.
    + by apply Forall_findByIdAndDelete.
    + apply Forall_app. split; [done|]. apply Forall_singleton. by eapply Hnew.
  - intros [= H]. apply public_get_effect in H as [_ [-> | (l0 & Hl0 & ->)]].
    + done.
    + apply Forall_updateOne; [done|]. apply Hacc.
      rewrite Forall_forall in Hall. by apply Hall.
  - by intros [= _ <-].
  - by intros [= _ <-].
Qed.

Lemma run_Forall (P : ApiLink → Prop) fuel rs db db' :
  (∀ doc m, accessCount doc = 0%Z → lastAccessed doc = None →
            matchId doc = trim m → P doc) →
  (∀ l x, P l → same_telemetry l x →
          (matchId x = matchId l ∨ ∃ m, matchId x = trim m) → P x) →
  (∀ l now, P l → P (accessed now l)) →
  Forall P (apilinks db) →
  run fuel rs db = Some db' →
  Forall P (apilinks db').
Proof.
  intros Hnew Hupd Hacc. revert db.
  induction rs as [|q rs IH]; simpl; intros db Hall.
  - by intros [= <-].
  - destruct (handle fuel q db) as [[resp db1]|] eqn:Hh; [|done].
    apply IH. by eapply handle_Forall.
Qed.

(** Starting without links, whatever requests are served, the stored
    links have pairwise different tokens and pairwise different [_id]s,
    and each is valid for the schema. *)
Theorem tokens_unique_after_any_requests
    (fuel : nat) (rs : list Request) (snapshots : gmap jstring (list Doc))
    (db' : Db) :
  run fuel rs (no_links snapshots) = Some db' →
  NoDup (map linkId (apilinks db'))
  ∧ NoDup (map _id (apilinks db'))
  ∧ Forall (fun l => validate l = true) (apilinks db').
Proof.
  intros Hrun.
  destruct (run_ok fuel rs (no_links snapshots) db' links_ok_nil Hrun)
    as [Hv Hi Hk].
  done.
Qed.

Lemma tokens_unique_after_any_requests_witness :
  ∃ db',
    run 10 [ Manager (PostApiLink Sample.draws 7 (JStr (lit " m-1 "))
                        (JStr (lit "full")) (lit "http://h"));
             Manager (PostApiLink Sample.draws 8 (JStr (lit "m-2"))
                        (JStr (lit "full")) (lit "http://h"));
             GetPublic 5 (lit "AAAAAAAAAAAAAAAA") ]
      (no_links ∅) = Some db'
    ∧ length (apilinks db') = 1%nat
    ∧ NoDup (map linkId (apilinks db'))
    ∧ NoDup (map _id (apilinks db'))
    ∧ Forall (fun l => validate l = true) (apilinks db').
Proof.
  eexists. split; [reflexivity|]. split; [reflexivity|].
  apply (tokens_unique_after_any_requests 10
           [ Manager (PostApiLink Sample.draws 7 (JStr (lit " m-1 "))
                        (JStr (lit "full")) (lit "http://h"));
             Manager (PostApiLink Sample.draws 8 (JStr (lit "m-2"))
                        (JStr (lit "full")) (lit "http://h"));
             GetPublic 5 (lit "AAAAAAAAAAAAAAAA") ] ∅).
  reflexivity.
Defined.

(** Once the stored [matchId]s carry no white space at their ends, they
    never do again: the creation and the update trim what they store and
    no other request writes a [matchId]. *)
Theorem matchIds_stay_trimmed
    (fuel : nat) (rs : list Request) (db db' : Db) :
  matchIds_trimmed (apilinks db) →
  run fuel rs db = Some db' →
  matchIds_trimmed (apilinks db').
Proof.
  unfold matchIds_trimmed. apply run_Forall.
  - intros doc m _ _ ->. apply trim_idem.
  - intros l x Hl _ [-> | (m & ->)]; [done | apply trim_idem].
  - by intros l now Hl.
Qed.

Lemma matchIds_stay_trimmed_witness :
  matchIds_trimmed
    (apilinks
       (apilinks_update 7 (lit "tokenA") (JStr (lit "  m-7 "))
          (JStr (lit "full")) (lit "http://h") Fixture.db).2).
Proof.
  apply (matchIds_stay_trimmed 10
           [Manager (PatchUpdate 7 (lit "tokenA") (JStr (lit "  m-7 "))
                       (JStr (lit "full")) (lit "http://h"))]
           Fixture.db).
  - repeat constructor.
  - reflexivity.
Defined.

(** The two telemetry fields stay consistent over every sequence of
    requests: the count is never negative, and it is 0 exactly when the
    link has no access date. *)
Theorem telemetry_stays_consistent
    (fuel : nat) (rs : list Request) (db db' : Db) :
  Forall telemetry_consistent (apilinks db) →
  run fuel rs db = Some db' →
  Forall telemetry_consistent (apilinks db').
Proof.
  apply run_Forall.
  - intros doc m Hc Hd _. unfold telemetry_consistent.
    rewrite Hc, Hd. split; [lia | done].
  - intros l x [Hl1 Hl2] [Hc Hd] _. unfold telemetry_consistent.
    by rewrite Hc, Hd.
  - intros l now [Hl1 Hl2]. unfold telemetry_consistent. simpl.
    split; [lia|]. split; [lia | done].
Qed.

Lemma telemetry_stays_consistent_witness :
  Forall telemetry_consistent
    (apilinks (public_get 5 (lit "tokenA") Fixture.db).2).
Proof.
  apply (telemetry_stays_consistent 10 [GetPublic 5 (lit "tokenA")]
           Fixture.db).
  - repeat constructor; simpl; try lia; done.
  - reflexivity.
Defined.

End Kept.

(** ** Resolutions one after the other *)

Section Resolutions.

Implicit Types (l d x : ApiLink) (links : list ApiLink) (db : Db).

Lemma counted_fields nows l :
  _id (counted nows l) = _id l
  ∧ userId (counted nows l) = userId l
  ∧ linkId (counted nows l) = linkId l
  ∧ matchId (counted nows l) = matchId l
  ∧ type (counted nows l) = type l
  ∧ isActive (counted nows l) = isActive l
  ∧ accessCount (counted nows l)
    = (accessCount l + Z.of_nat (length nows))%Z
  ∧ lastAccessed (counted nows l)
    = match last nows with
      | Some now => Some now
      | None => lastAccessed l
      end.
Proof.
  revert l. induction nows as [|now nows IH]; intros l.
  - simpl. repeat split; try done. lia.
  - change (counted (now :: nows) l) with (counted nows (accessed now l)).
    destruct (IH (accessed now l)) as (-> & -> & -> & -> & -> & -> & -> & ->).
    repeat split; try done.
    + simpl accessCount. rewrite length_cons. lia.
    + rewrite last_cons. by destruct (last nows).
Qed.

(** Resolving the token of an enabled link [n] times in a row adds [n]
    to its count and leaves the time of the last resolution as its
    access date; the link is otherwise unchanged, and so are the other
    links and the snapshots. *)
Theorem resolutions_are_counted
    (fuel : nat) (nows : list Z) (db : Db) (l : ApiLink) :
  links_ok (apilinks db) → l ∈ apilinks db → isActive l = true →
  ∃ before after l',
    apilinks db = before ++ l :: after
    ∧ run fuel (resolutions (linkId l) nows) db
      = Some (with_apilinks db (before ++ l' :: after))
    ∧ accessCount l' = (accessCount l + Z.of_nat (length nows))%Z
    ∧ lastAccessed l' = match last nows with
                        | Some now => Some now
                        | None => lastAccessed l
                        end
    ∧ (_id l', userId l', linkId l', matchId l', type l', isActive l')
      = (_id l, userId l, linkId l, matchId l, type l, isActive l).
Proof.
  intros Hok Hl Hact.
  assert (Hrun : run fuel (resolutions (linkId l) nows) db
                 = Some (with_apilinks db
                           (updateOne (counted nows l) (apilinks db)))).
  { revert db l Hok Hl Hact.
    induction nows as [|now nows IH]; intros db l Hok Hl Hact.
    - simpl. rewrite (updateOne_stored l _ (ok_ids _ Hok) Hl).
      by rewrite with_apilinks_same.
    - cbn [resolutions map run handle].
      rewrite (public_get_accepted now (linkId l) db l)
        by eauto using find_active, links_ok_valid.
      set (links1 := updateOne (accessed now l) (apilinks db)).
      assert (Hok1 : links_ok links1).
      { apply (save_ok (accessed now l) l (apilinks db)); try done.
        apply save_valid. rewrite validate_accessed.
        by eapply links_ok_valid. }
      assert (Hin1 : accessed now l ∈ links1)
        by (apply (elem_of_updateOne _ l); by destruct Hok || done).
      pose proof (IH (with_apilinks db links1) (accessed now l) Hok1 Hin1
                    Hact) as Hrest.
      cbn [linkId accessed] in Hrest.
      change (map (fun now0 => GetPublic now0 (linkId l)) nows)
        with (resolutions (linkId l) nows).
      rewrite Hrest. f_equal. unfold with_apilinks.
      cbn [apilinks collections]. f_equal. unfold links1.
      change (counted (now :: nows) l)
        with (counted nows (accessed now l)).
      apply updateOne_twice.
      by destruct (counted_fields nows (accessed now l)) as [-> _]. }
  destruct (counted_fields nows l)
    as (Hid & Hu & Hk & Hm & Ht & Ha & Hc & Hd).
  destruct (updateOne_spec (counted nows l) l (apilinks db))
    as (before & after & Hdb & Hup); [by destruct Hok | done | done |].
  exists before, after, (counted nows l).
  rewrite Hrun, Hup. repeat split; try done. congruence.
Qed.

Lemma resolutions_are_counted_witness :
  ∃ before after l',
    apilinks Fixture.db = before ++ Sample.link_a :: after
    ∧ run 0 (resolutions (lit "tokenA") [10; 20; 30]%Z) Fixture.db
      = Some (with_apilinks Fixture.db (before ++ l' :: after))
    ∧ accessCount l' = 3%Z
    ∧ lastAccessed l' = Some 30%Z
    ∧ (_id l', userId l', linkId l', matchId l', type l', isActive l')
      = (1%nat, 7%nat, lit "tokenA", lit "m-1", lit "points_table", true).
Proof.
  apply (resolutions_are_counted 0 [10; 20; 30]%Z Fixture.db Sample.link_a
           fixture_links_ok).
  - apply list_elem_of_here.
  - reflexivity.
Defined.

End Resolutions.

(** ** Creation requests that are refused *)

Section CreateRefused.

Implicit Types (db : Db).

(** The creation route refuses a body without a [matchId] or a [type]
    and a body with a [type] outside the three values with 400, before
    any token is generated (whatever the fuel and the draws); and a
    [matchId] that is truthy but not a string passes these checks and
    ends in a 500.  None of these requests changes the database. *)
Theorem apilinks_post_refusals
    (fuel : nat) (draws : Draws) (uid : nat) (mid ty : JsVal)
    (baseUrl : jstring) (db : Db) :
  (truthy mid = false ∨ truthy ty = false →
     apilinks_post fuel draws uid mid ty baseUrl db
     = Some (fail 400 "Match ID and type are required", db))
  ∧ (truthy mid = true → truthy ty = true →
     (∀ t, t ∈ type_enum → ty ≠ JStr t) →
     apilinks_post fuel draws uid mid ty baseUrl db
     = Some (fail 400
               "Invalid type. Use: full, alive_status, or points_table", db))
  ∧ (truthy mid = true → (∀ m, mid ≠ JStr m) →
     (∃ t, ty = JStr t ∧ t ∈ type_enum) → (10 ≤ fuel)%nat →
     ∃ resp, apilinks_post fuel draws uid mid ty baseUrl db = Some (resp, db)
             ∧ status resp = 500%nat).
Proof.
  split; [|split].
  - unfold apilinks_post. by intros [-> | ->]; rewrite ?orb_true_r.
  - intros Hm Ht Hty. unfold apilinks_post. rewrite Hm, Ht. simpl.
    destruct (includes type_enum ty) eqn:Hi; [|done].
    apply includes_type_enum in Hi as (t & -> & Hin).
    by destruct (Hty t Hin).
  - intros Hm Hns Hty Hfuel. unfold apilinks_post. rewrite Hm.
    assert (Hi := proj2 (includes_type_enum ty) Hty). rewrite Hi.
    destruct Hty as (t & -> & Hin).
    assert (Htt : truthy (JStr t) = true).
    { simpl.
      by rewrite (proj2 (is_empty_false t) (type_enum_nonempty t Hin)). }
    rewrite Htt. cbn [negb orb].
    change gen_init with (mkGenState None false 0 (16 * 0)).
    destruct (gen_while_from fuel draws (apilinks db) 0 None)
      as [(k & _ & _ & _ & ->) | (_ & st & -> & Hu & _)]; [lia | lia | |].
    + simpl. destruct mid as [| | | |s| |];
        try (exists server_error; by split).
      by destruct (Hns s).
    + simpl. rewrite Hu. simpl.
      exists (fail 500 "Failed to generate unique link ID"). by split.
Qed.

Lemma apilinks_post_refusals_witness :
  apilinks_post 0 Sample.draws 7 JNull (JStr (lit "full")) (lit "http://h")
    Fixture.db
  = Some (fail 400 "Match ID and type are required", Fixture.db)
  ∧ apilinks_post 0 Sample.draws 7 (JStr (lit "m-1")) (JStr (lit "Full"))
      (lit "http://h") Fixture.db
    = Some (fail 400
              "Invalid type. Use: full, alive_status, or points_table",
            Fixture.db)
  ∧ ∃ resp,
      apilinks_post 10 Sample.draws 7 (JNum 42) (JStr (lit "full"))
        (lit "http://h") Fixture.db = Some (resp, Fixture.db)
      ∧ status resp = 500%nat.
Proof.
  split; [|split].
  - apply (apilinks_post_refusals 0 Sample.draws 7 JNull (JStr (lit "full"))
             (lit "http://h") Fixture.db).
    by left.
  - apply (apilinks_post_refusals 0 Sample.draws 7 (JStr (lit "m-1"))
             (JStr (lit "Full")) (lit "http://h") Fixture.db); try done.
    intros t Ht. unfold type_enum in Ht.
    repeat (apply elem_of_cons in Ht as [->|Ht]; [done|]).
    by apply elem_of_nil in Ht.
  - apply (apilinks_post_refusals 10 Sample.draws 7 (JNum 42)
             (JStr (lit "full")) (lit "http://h") Fixture.db); try done.
    exists (lit "full"). split; [done | apply list_elem_of_here].
Defined.

End CreateRefused.

(** ** The link path and the direct path *)

Section TwoPaths.

Implicit Types (l : ApiLink) (db : Db).

Lemma trimmed_names_agree (m : jstring) :
  trim m = m → public_collectionName m = livescore_collectionName m.
Proof.
  intros H. unfold public_collectionName, livescore_collectionName.
  by rewrite H.
Qed.

(** For a link whose [matchId] carries no white space at its ends and
    whose match has a container, the resolver answers what the direct
    read of that match answers: the direct route of the link's type for
    the two filtered types, the full route for [full]. *)
Theorem link_and_direct_read_agree (now : Z) (db : Db) (l : ApiLink) :
  links_ok (apilinks db) → l ∈ apilinks db → isActive l = true →
  trim (matchId l) = matchId l →
  is_Some (collections db !! public_collectionName (matchId l)) →
  (public_get now (linkId l) db).1
  = if eqb (type l) (lit "full") then livescore_full (matchId l) db
    else livescore_get (matchId l) (JStr (type l)) db.
Proof.
  intros Hok Hl Hact Htrim [docs Hdocs].
  rewrite (public_get_accepted now (linkId l) db l)
    by eauto using find_active, links_ok_valid.
  cbn [fst]. unfold resolved. rewrite Hdocs.
  rewrite (trimmed_names_agree _ Htrim) in Hdocs.
  assert (Hex : collectionExists db (livescore_collectionName (matchId l))
                = true).
  { unfold collectionExists. apply bool_decide_eq_true, elem_of_dom.
    by rewrite Hdocs. }
  assert (Hcoll : collection db (livescore_collectionName (matchId l)) = docs)
    by (by apply collection_lookup).
  pose proof (links_ok_valid _ _ Hok Hl) as Hv.
  apply validate_iff in Hv as (_ & _ & Hty). unfold type_enum in Hty.
  apply elem_of_cons in Hty as [Hty|Hty];
    [|apply elem_of_cons in Hty as [Hty|Hty];
      [|apply list_elem_of_singleton in Hty]];
    rewrite Hty.
  - unfold livescore_full. rewrite Hex, Hcoll. cbn [negb].
    by destruct (findLatest docs).
  - unfold livescore_get. rewrite Hex, Hcoll.
    by destruct (findLatest docs).
  - unfold livescore_get. rewrite Hex, Hcoll.
    by destruct (findLatest docs).
Qed.

Lemma link_and_direct_read_agree_witness :
  (public_get 5 (lit "tokenA") Fixture.db).1
  = livescore_get (lit "m-1") (JStr (lit "points_table")) Fixture.db
  ∧ (public_get 5 (lit "tokenE") Fixture.db).1
    = livescore_full (lit "m-1") Fixture.db.
Proof.
  split.
  - apply (link_and_direct_read_agree 5 Fixture.db Sample.link_a
             fixture_links_ok);
      [apply list_elem_of_here | done | done | by eexists].
  - apply (link_and_direct_read_agree 5 Fixture.db Fixture.link_e
             fixture_links_ok);
      [do 3 apply list_elem_of_further; apply list_elem_of_here
      | done | done | by eexists].
Defined.

(** The filtered direct route answers 400 exactly when the [type] of
    the query is neither [points_table] nor [alive_status], whatever the
    match and the database; [full], which a link may have, is refused
    there. *)
Theorem livescore_get_400_iff_type (m : jstring) (ty : JsVal) (db : Db) :
  status (livescore_get m ty db) = 400%nat
  ↔ ty ≠ JStr (lit "points_table") ∧ ty ≠ JStr (lit "alive_status").
Proof.
  unfold livescore_get. split.
  - intros H. split; intros ->; revert H; simpl;
      destruct (negb (collectionExists _ _)); try done;
      by destruct (findLatest _).
  - intros [Hp Ha].
    replace (includes [lit "alive_status"; lit "points_table"] ty)
      with false; [by rewrite orb_true_r|].
    symmetry. unfold includes. destruct ty as [| | | |s| |]; try done.
    apply not_true_iff_false. intros He.
    apply existsb_exists in He as (x & Hx & Heq).
    apply eqb_eq in Heq as ->. simpl in Hx.
    destruct Hx as [<-|[<-|[]]]; [by destruct Ha | by destruct Hp].
Qed.

(** The URL of a stored link, as the model's method builds it, names
    that link and no other, and the [publicUrl] two routes send is the
    base URL followed by it. *)
Theorem getApiUrl_names_one_link
    (links : list ApiLink) (l1 l2 : ApiLink) (baseUrl : jstring) :
  links_ok links → l1 ∈ links → l2 ∈ links →
  (getApiUrl l1 = getApiUrl l2 → l1 = l2)
  ∧ publicUrl_of baseUrl (linkId l1) = baseUrl ++ getApiUrl l1.
Proof.
  intros [_ _ Hk] H1 H2. split; [|done].
  unfold getApiUrl. intros Heq. apply app_inv_head in Heq.
  by apply (linkId_unique links l2 l1).
Qed.

Lemma getApiUrl_names_one_link_witness :
  (getApiUrl Sample.link_a = getApiUrl Fixture.link_e →
   Sample.link_a = Fixture.link_e)
  ∧ publicUrl_of (lit "http://h") (lit "tokenA")
    = lit "http://h" ++ getApiUrl Sample.link_a.
Proof.
  apply (getApiUrl_names_one_link (apilinks Fixture.db) Sample.link_a
           Fixture.link_e (lit "http://h") fixture_links_ok).
  - apply list_elem_of_here.
  - do 3 apply list_elem_of_further. apply list_elem_of_here.
Defined.

End TwoPaths.

(** ** Updating a link, then resolving it *)

Section Retarget.

Implicit Types (l : ApiLink) (db : Db).

(** After its owner has given an enabled link a new [matchId] and
    [type], the same token resolves through the container of the new
    match and projects with the new type; the update has counted no
    access. *)
Theorem update_retargets_the_token
    (now : Z) (m t baseUrl : jstring) (db : Db) (l : ApiLink) :
  links_ok (apilinks db) → l ∈ apilinks db → isActive l = true →
  trim m ≠ [] → t ∈ type_enum →
  ∃ db' l',
    (apilinks_update (userId l) (linkId l) (JStr m) (JStr t) baseUrl db).2
    = db'
    ∧ l' ∈ apilinks db'
    ∧ linkId l' = linkId l
    ∧ accessCount l' = accessCount l ∧ lastAccessed l' = lastAccessed l
    ∧ (public_get now (linkId l) db').1
      = resolved db (public_collectionName m) t.
Proof.
  intros Hok Hl Hact Hm Ht.
  destruct (apilinks_update_accepted (userId l) (linkId l) m t baseUrl db l)
    as (l' & before & after & Hdb & Hupd & Hmid & Hty & Hrest); try done.
  injection Hrest as Hid Hu Hk Ha Hd Hc.
  rewrite Hupd. cbn [snd].
  exists (with_apilinks db (before ++ l' :: after)), l'.
  assert (Hin : l' ∈ before ++ l' :: after)
    by (apply elem_of_app; right; by left).
  assert (Hok' : links_ok (before ++ l' :: after)).
  { destruct Hok as [Hv Hi Hkk]. rewrite Hdb in Hv, Hi, Hkk. split.
    - apply Forall_app in Hv as [Hb Hr].
      apply Forall_cons in Hr as [Hvl Hr].
      apply Forall_app. split; [done|]. apply Forall_cons. split; [|done].
      apply validate_iff in Hvl as (Hv1 & _ & _).
      apply validate_iff. by rewrite Hk, Hmid, Hty.
    - rewrite map_app in *. simpl in *. by rewrite Hid.
    - rewrite map_app in *. simpl in *. by rewrite Hk. }
  repeat split; try done.
  rewrite <- Hk.
  rewrite (public_get_accepted now (linkId l')
             (with_apilinks db (before ++ l' :: after)) l').
  - cbn [fst]. rewrite Hmid, Hty, public_name_trim. done.
  - apply find_active; [done | done | by rewrite Ha].
  - by apply (links_ok_valid (before ++ l' :: after)).
Qed.

Lemma update_retargets_the_token_witness :
  ∃ db' l',
    (apilinks_update 7 (lit "tokenA") (JStr (lit " m-2 ")) (JStr (lit "full"))
       (lit "http://h") Fixture.db).2 = db'
    ∧ l' ∈ apilinks db'
    ∧ linkId l' = lit "tokenA"
    ∧ accessCount l' = 0%Z ∧ lastAccessed l' = None
    ∧ (public_get 9 (lit "tokenA") db').1
      = resolved Fixture.db (public_collectionName (lit " m-2 "))
          (lit "full").
Proof.
  apply (update_retargets_the_token 9 (lit " m-2 ") (lit "full")
           (lit "http://h") Fixture.db Sample.link_a fixture_links_ok).
  - apply list_elem_of_here.
  - reflexivity.
  - done.
  - apply list_elem_of_here.
Defined.

End Retarget.
